(** * eic-smear: Monte Carlo particle records ([erhic::ParticleMC]) and beam
    identification ([ParticleIdentifier])

    A shallow embedding of [src/erhic/ParticleMC.cxx] and of the interface
    declared in [include/eicsmear/erhic/ParticleIdentifier.h].

    - [Double_t] is an abstract type [D] with the operations of the class
      [DoubleOps]; it is instantiated by the real numbers (exact arithmetic)
      and by IEEE-754 binary64 (the kernel's primitive floats).
    - Integer members are [Z]; conversions to [unsigned] wrap modulo 2^32.
    - The event owning a particle is passed explicitly (the result of
      [GetEvent()]), tracks are a [list], and [std::cerr] is a list of lines.
    - Exceptions are values of [exception]; code inside a [try] block runs in
      a state-and-exception monad over the particle being updated. *)

From Stdlib Require Import ZArith List String Ascii Bool Lia.
From Stdlib Require Import Reals Lra Floats.
Import ListNotations.

Set Implicit Arguments.

(** ** [Double_t] arithmetic *)

(** The operations on [Double_t] the sources use: literals, the four
    arithmetic operators, unary minus, the comparisons [<=], [<] and [==],
    [TMath::IsNaN], and the libm functions [sqrt], [pow], [log] and
    [atan2]. *)
Class DoubleOps (D : Type) : Type := {
  d_lit : Z -> D;
  d_half : D;
  d_twopi : D;
  d_add : D -> D -> D;
  d_sub : D -> D -> D;
  d_mul : D -> D -> D;
  d_div : D -> D -> D;
  d_neg : D -> D;
  d_le : D -> D -> bool;
  d_lt : D -> D -> bool;
  d_eq : D -> D -> bool;
  d_isnan : D -> bool;
  d_sqrt : D -> D;
  d_pow : D -> D -> D;
  d_log : D -> D;
  d_atan2 : D -> D -> D
}.

Declare Scope dbl_scope.
Delimit Scope dbl_scope with dbl.
Notation "x + y" := (d_add x y) : dbl_scope.
Notation "x - y" := (d_sub x y) : dbl_scope.
Notation "x * y" := (d_mul x y) : dbl_scope.
Notation "x / y" := (d_div x y) : dbl_scope.
Notation "x <=? y" := (d_le x y) : dbl_scope.
Notation "x <? y" := (d_lt x y) : dbl_scope.
Notation "x =? y" := (d_eq x y) : dbl_scope.

(** ** Unsigned conversion *)

(** [unsigned(x)], [UInt_t]: the value modulo 2^32. *)
Definition UInt_t (x : Z) : Z := x mod 2 ^ 32.

(** [std::numeric_limits<Int_t>::min()]. *)
Definition Int_t_min : Z := - 2 ^ 31.

(** ** Exceptions and [std::cerr] *)

Inductive exception : Type :=
| runtime_error (what : string)
| out_of_range (what : string).

Definition what (e : exception) : string :=
  match e with
  | runtime_error w => w
  | out_of_range w => w
  end.

Section Model.

Context {D : Type} {ops : DoubleOps D}.
Local Open Scope dbl_scope.

(** ** ROOT's [TVector3] and [TLorentzVector] *)

Record TVector3 : Type := mkTVector3 {
  vX : D;
  vY : D;
  vZ : D
}.

(** [TLorentzVector(x, y, z, t)]. *)
Record TLorentzVector : Type := mkTLorentzVector {
  Px : D;
  Py : D;
  Pz : D;
  Energy : D
}.

Definition Vect (v : TLorentzVector) : TVector3 :=
  mkTVector3 (Px v) (Py v) (Pz v).

(** [TLorentzVector::Dot]: [T*q.T - Z*q.Z - Y*q.Y - X*q.X]. *)
Definition Dot (v q : TLorentzVector) : D :=
  Energy v * Energy q - Pz v * Pz q - Py v * Py q - Px v * Px q.

(** [operator+] of [TLorentzVector]. *)
Definition lv_add (v q : TLorentzVector) : TLorentzVector :=
  mkTLorentzVector (Px v + Px q) (Py v + Py q) (Pz v + Pz q)
                   (Energy v + Energy q).

(** [operator-] of [TLorentzVector]. *)
Definition lv_sub (v q : TLorentzVector) : TLorentzVector :=
  mkTLorentzVector (Px v - Px q) (Py v - Py q) (Pz v - Pz q)
                   (Energy v - Energy q).

(** [TLorentzVector::BoostVector]: [(X/T, Y/T, Z/T)]. *)
Definition BoostVector (v : TLorentzVector) : TVector3 :=
  mkTVector3 (Px v / Energy v) (Py v / Energy v) (Pz v / Energy v).

(** [TLorentzVector::Pt]: [sqrt(x*x + y*y)]. *)
Definition Pt (v : TLorentzVector) : D :=
  d_sqrt (Px v * Px v + Py v * Py v).

(** [TLorentzVector::Theta]: 0 for the null vector, else [atan2(Perp, z)]. *)
Definition Theta (v : TLorentzVector) : D :=
  if (Px v =? d_lit 0) && (Py v =? d_lit 0) && (Pz v =? d_lit 0)
  then d_lit 0
  else d_atan2 (Pt v) (Pz v).

(** [TLorentzVector::Boost(bx, by, bz)]: the pure Lorentz boost of velocity
    [b] (in units of c). *)
Definition Boost (b : TVector3) (v : TLorentzVector) : TLorentzVector :=
  let b2 := vX b * vX b + vY b * vY b + vZ b * vZ b in
  let gamma := d_lit 1 / d_sqrt (d_lit 1 - b2) in
  let bp := vX b * Px v + vY b * Py v + vZ b * Pz v in
  let gamma2 := if d_lit 0 <? b2 then (gamma - d_lit 1) / b2 else d_lit 0 in
  mkTLorentzVector
    (Px v + gamma2 * bp * vX b + gamma * vX b * Energy v)
    (Py v + gamma2 * bp * vY b + gamma * vY b * Energy v)
    (Pz v + gamma2 * bp * vZ b + gamma * vZ b * Energy v)
    (gamma * (Energy v + bp)).

(** [TVector2::Phi_0_2pi]: returns a NaN argument unchanged, otherwise runs
    [while (x >= kTWOPI) x -= kTWOPI; while (x < 0.) x += kTWOPI;].
    Each loop is unrolled [n] times. *)
Fixpoint Phi_sub (n : nat) (x : D) : D :=
  match n with
  | O => x
  | S n' => if d_twopi <=? x then Phi_sub n' (x - d_twopi) else x
  end.

Fixpoint Phi_add (n : nat) (x : D) : D :=
  match n with
  | O => x
  | S n' => if x <? d_lit 0 then Phi_add n' (x + d_twopi) else x
  end.

Definition Phi_0_2pi_unrolled (n : nat) (x : D) : D :=
  if d_isnan x then x else Phi_add n (Phi_sub n x).

(** The argument [ComputeDerivedQuantities] passes is a result of [atan2],
    between -pi and pi: two rounds are more than either loop can need there
    (on the reals, [Phi_0_2pi_atan2_exits] below). *)
Definition Phi_0_2pi : D -> D := Phi_0_2pi_unrolled 2.

(** ** [erhic::ParticleMC] *)

(** The data members, in the order of the constructor's initialiser list.
    ParticleMC.h, which declares their types, is not among the sources: the
    integer members hold the integer they are given, as in the spec's data
    model, and the others are [Double_t]. *)
Record ParticleMC : Type := mkParticleMC {
  I : Z;
  KS : Z;
  id : Z;
  orig : Z;
  daughter : Z;
  ldaughter : Z;
  px : D;
  py : D;
  pz : D;
  E : D;
  m : D;
  pt : D;
  xv : D;
  yv : D;
  zv : D;
  parentId : Z;
  p : D;
  theta : D;
  phi : D;
  rapidity : D;
  eta : D;
  z : D;
  xFeynman : D;
  thetaGamma : D;
  ptVsGamma : D;
  phiPrf : D
}.

(** [ParticleMC::ComputeDerivedQuantities]. *)
Definition ComputeDerivedQuantities (this : ParticleMC) : ParticleMC :=
  let pt' := d_sqrt (d_pow (px this) (d_lit 2) + d_pow (py this) (d_lit 2)) in
  let p' := d_sqrt (d_pow pt' (d_lit 2) + d_pow (pz this) (d_lit 2)) in
  let Epluspz := E this + pz this in
  let Eminuspz := E this - pz this in
  let Ppluspz := p' + pz this in
  let Pminuspz := p' - pz this in
  let dummy := (Eminuspz <=? d_lit 0) || (Pminuspz =? d_lit 0) ||
               (Ppluspz =? d_lit 0) || (Epluspz <=? d_lit 0) in
  let rapidity' :=
    if dummy then d_lit (-19) else d_half * d_log (Epluspz / Eminuspz) in
  let eta' :=
    if dummy then d_lit (-19) else d_half * d_log (Ppluspz / Pminuspz) in
  let theta' := d_atan2 pt' (pz this) in
  let phi' := Phi_0_2pi (d_atan2 (py this) (px this)) in
  mkParticleMC (I this) (KS this) (id this) (orig this) (daughter this)
    (ldaughter this) (px this) (py this) (pz this) (E this) (m this)
    pt' (xv this) (yv this) (zv this) (parentId this)
    p' theta' phi' rapidity' eta'
    (z this) (xFeynman this) (thetaGamma this) (ptVsGamma this)
    (phiPrf this).

(** [ParticleMC::Get4Vector]. *)
Definition Get4Vector (this : ParticleMC) : TLorentzVector :=
  mkTLorentzVector (px this) (py this) (pz this) (E this).

(** [ParticleMC::Set4Vector]. *)
Definition Set4Vector (v : TLorentzVector) (this : ParticleMC) : ParticleMC :=
  ComputeDerivedQuantities
    (mkParticleMC (I this) (KS this) (id this) (orig this) (daughter this)
       (ldaughter this) (Px v) (Py v) (Pz v) (Energy v) (m this)
       (pt this) (xv this) (yv this) (zv this) (parentId this)
       (p this) (theta this) (phi this) (rapidity this) (eta this)
       (z this) (xFeynman this) (thetaGamma this) (ptVsGamma this)
       (phiPrf this)).

(** Member-wise assignments to the event-dependent members. *)
Definition set_z (v : D) (this : ParticleMC) : ParticleMC :=
  mkParticleMC (I this) (KS this) (id this) (orig this) (daughter this)
    (ldaughter this) (px this) (py this) (pz this) (E this) (m this)
    (pt this) (xv this) (yv this) (zv this) (parentId this)
    (p this) (theta this) (phi this) (rapidity this) (eta this)
    v (xFeynman this) (thetaGamma this) (ptVsGamma this) (phiPrf this).

Definition set_xFeynman (v : D) (this : ParticleMC) : ParticleMC :=
  mkParticleMC (I this) (KS this) (id this) (orig this) (daughter this)
    (ldaughter this) (px this) (py this) (pz this) (E this) (m this)
    (pt this) (xv this) (yv this) (zv this) (parentId this)
    (p this) (theta this) (phi this) (rapidity this) (eta this)
    (z this) v (thetaGamma this) (ptVsGamma this) (phiPrf this).

Definition set_thetaGamma (v : D) (this : ParticleMC) : ParticleMC :=
  mkParticleMC (I this) (KS this) (id this) (orig this) (daughter this)
    (ldaughter this) (px this) (py this) (pz this) (E this) (m this)
    (pt this) (xv this) (yv this) (zv this) (parentId this)
    (p this) (theta this) (phi this) (rapidity this) (eta this)
    (z this) (xFeynman this) v (ptVsGamma this) (phiPrf this).

Definition set_ptVsGamma (v : D) (this : ParticleMC) : ParticleMC :=
  mkParticleMC (I this) (KS this) (id this) (orig this) (daughter this)
    (ldaughter this) (px this) (py this) (pz this) (E this) (m this)
    (pt this) (xv this) (yv this) (zv this) (parentId this)
    (p this) (theta this) (phi this) (rapidity this) (eta this)
    (z this) (xFeynman this) (thetaGamma this) v (phiPrf this).

Definition set_phiPrf (v : D) (this : ParticleMC) : ParticleMC :=
  mkParticleMC (I this) (KS this) (id this) (orig this) (daughter this)
    (ldaughter this) (px this) (py this) (pz this) (E this) (m this)
    (pt this) (xv this) (yv this) (zv this) (parentId this)
    (p this) (theta this) (phi this) (rapidity this) (eta this)
    (z this) (xFeynman this) (thetaGamma this) (ptVsGamma this) v.

Definition set_parentId (v : Z) (this : ParticleMC) : ParticleMC :=
  mkParticleMC (I this) (KS this) (id this) (orig this) (daughter this)
    (ldaughter this) (px this) (py this) (pz this) (E this) (m this)
    (pt this) (xv this) (yv this) (zv this) v
    (p this) (theta this) (phi this) (rapidity this) (eta this)
    (z this) (xFeynman this) (thetaGamma this) (ptVsGamma this)
    (phiPrf this).

(** ** [erhic::EventMC] as the particle code sees it *)

Record EventMC : Type := mkEventMC {
  particles : list ParticleMC;
  W2 : D
}.

Definition GetNTracks (event : EventMC) : Z :=
  Z.of_nat (List.length (particles event)).

Definition GetW2 (event : EventMC) : D := W2 event.

(** Modelled from the spec: [EventMC::GetTrack(UInt_t)] is defined in
    EventMC.h, which is not among the sources.  Section 6 of the spec gives
    it as the 0-based indexed view of the particle list; the argument is
    converted to [UInt_t], and [None] stands for "no track at that index". *)
Definition GetTrack (event : EventMC) (u : Z) : option ParticleMC :=
  nth_error (particles event) (Z.to_nat (UInt_t u)).

(** A track lookup together with the index it was made at. *)
Definition GetTrack_logged (event : EventMC) (u : Z)
  : option ParticleMC * list Z :=
  (GetTrack event u, [UInt_t u]).

(** Modelled from the spec: [ParticleMC::GetParentIndex] is defined in
    ParticleMC.h, which is not among the sources.  The spec gives the parent
    index as the stored origin index. *)
Definition GetParentIndex (this : ParticleMC) : Z := orig this.

(** Modelled from the spec: [ParticleMC::GetNChildren] is defined in
    ParticleMC.h, which is not among the sources.  Section 4.4 of the spec
    gives the number of children as last-daughter - first-daughter + 1. *)
Definition GetNChildren (this : ParticleMC) : Z :=
  ldaughter this - daughter this + 1.

(** [ParticleMC::GetChild].  [event] is the result of [GetEvent()]; the
    second component lists the indices [GetTrack] was called with. *)
Definition GetChild (event : option EventMC) (this : ParticleMC) (u : Z)
  : option ParticleMC * list Z :=
  match event with
  | None => (None, [])
  | Some ev =>
      let idx := UInt_t (daughter this + u) in
      if (daughter this <? 1)%Z || (GetNChildren this <=? u)%Z
      then (None, [])
      else
        let idx := UInt_t (idx - 1) in
        if (idx <? GetNTracks ev)%Z then GetTrack_logged ev idx
        else (None, [])
  end.

(** [ParticleMC::GetParent]. *)
Definition GetParent (event : option EventMC) (this : ParticleMC)
  : option ParticleMC * list Z :=
  match event with
  | None => (None, [])
  | Some ev =>
      if (UInt_t (GetParentIndex this) <=? GetNTracks ev)%Z
      then GetTrack_logged ev (GetParentIndex this - 1)
      else (None, [])
  end.

(** ** The [try] block: state and exceptions *)

(** A computation inside [try { ... }]: it updates the particle in place and
    either completes or throws; what was assigned before a throw stays
    assigned. *)
Definition Try (A : Type) : Type :=
  ParticleMC -> ParticleMC * (exception + A).

Definition ret {A : Type} (a : A) : Try A := fun this => (this, inr a).

Definition throw {A : Type} (e : exception) : Try A :=
  fun this => (this, inl e).

Definition bind {A B : Type} (c : Try A) (k : A -> Try B) : Try B :=
  fun this =>
    match c this with
    | (this', inr a) => k a this'
    | (this', inl e) => (this', inl e)
    end.

Definition self : Try ParticleMC := fun this => (this, inr this).

Definition assign (f : ParticleMC -> ParticleMC) : Try unit :=
  fun this => (f this, inr tt).

Notation "x <- c ;; k" := (bind c (fun x => k))
  (at level 61, c at next level, right associativity).
Notation "c ;;; k" := (bind c (fun _ => k))
  (at level 61, right associativity).

(** The exception of a failed lookup. *)
Definition missing_track : exception :=
  out_of_range "GetTrack: no such track".

(** Modelled from the spec: [event.GetTrack(i)->Get4Vector()] on a track that
    is not there.  EventMC.h is not among the sources; section 4.2 of the spec
    says the operation then "fails with a lookup error", an exception derived
    from [std::exception]. *)
Definition GetTrack_deref (event : EventMC) (u : Z) : Try ParticleMC :=
  match GetTrack event u with
  | Some q => ret q
  | None => throw missing_track
  end.

(** ** ROOT's Lorentz rotations and [computeHermesPhiH] *)

(** What [computeBoost] and [ComputeEventDependentQuantities] use of ROOT's
    [TLorentzRotation] and [TRotation] and of eicsmear/functions.h; none of
    these can throw. *)
Class RootOps : Type := {
  TLorentzRotation : Type;
  TRotation : Type;
  (** [TLorentzRotation(const TVector3&)]: the boost by that velocity. *)
  LorentzRotation : TVector3 -> TLorentzRotation;
  (** A default-constructed [TRotation]: the identity. *)
  Rotation : TRotation;
  SetZAxis : TRotation -> TVector3 -> TRotation;
  Inverse : TRotation -> TRotation;
  Transform : TLorentzRotation -> TRotation -> TLorentzRotation;
  (** [v *= r] on a [TLorentzVector]. *)
  lv_transform : TLorentzVector -> TLorentzRotation -> TLorentzVector;
  computeHermesPhiH :
    TLorentzVector -> TLorentzVector -> TLorentzVector -> D
}.

Context {root : RootOps}.

(** Unary minus of [TVector3]. *)
Definition v3_neg (v : TVector3) : TVector3 :=
  mkTVector3 (d_neg (vX v)) (d_neg (vY v)) (d_neg (vZ v)).

(** [computeBoost] of the anonymous namespace: the boost to the rest frame of
    [rest]; if [z] is given, followed by the rotation that makes the boosted
    [z] the positive z direction. *)
Definition computeBoost (rest : TLorentzVector) (z : option TLorentzVector)
  : TLorentzRotation :=
  let toRest := LorentzRotation (v3_neg (BoostVector rest)) in
  match z with
  | Some zv =>
      let boostedZ := lv_transform zv toRest in
      let rotate := SetZAxis Rotation (Vect boostedZ) in
      let rotate := Inverse rotate in
      Transform toRest rotate
  | None => toRest
  end.

(** The body of the [try] block of
    [ParticleMC::ComputeEventDependentQuantities]. *)
Definition ComputeEventDependentQuantities_try (event : EventMC) : Try unit :=
  hadronP <- GetTrack_deref event 1 ;;
  leptonP <- GetTrack_deref event 2 ;;
  bosonP <- GetTrack_deref event 3 ;;
  let hadron := Get4Vector hadronP in
  let lepton := Get4Vector leptonP in
  let boson := Get4Vector bosonP in
  this <- self ;;
  assign (set_z (Dot hadron (Get4Vector this) / Dot hadron boson)) ;;;
  let toHadronRest := computeBoost hadron (Some boson) in
  this <- self ;;
  let p := lv_transform (Get4Vector this) toHadronRest in
  assign (set_thetaGamma (Theta p)) ;;;
  assign (set_ptVsGamma (Pt p)) ;;;
  let bosonPrf := lv_transform boson toHadronRest in
  let leptonPrf := lv_transform lepton toHadronRest in
  assign (set_phiPrf (computeHermesPhiH p leptonPrf bosonPrf)) ;;;
  let boost := computeBoost (lv_add boson hadron) (Some boson) in
  this <- self ;;
  assign (set_xFeynman
            (d_lit 2 * Pz (lv_transform (Get4Vector this) boost)
             / d_sqrt (GetW2 event))) ;;;
  this <- self ;;
  if (UInt_t (orig this - 1) <? GetNTracks event)%Z
  then parent <- GetTrack_deref event (orig this - 1) ;;
       assign (set_parentId (id parent))
  else ret tt.

(** [ParticleMC::ComputeEventDependentQuantities]: the [try] block and its
    handler [catch(std::exception& e)], which writes one line to [std::cerr].
    The result is the particle after the call and the lines written. *)
Definition ComputeEventDependentQuantities (event : EventMC)
    (this : ParticleMC) : ParticleMC * list string :=
  match ComputeEventDependentQuantities_try event this with
  | (this', inr _) => (this', [])
  | (this', inl e) =>
      (this',
       [("Exception in Particle::ComputeEventDependentQuantities: "
         ++ what e)%string])
  end.

(** ** [std::stringstream] and the constructor *)

(** The stream: the characters not yet read and the two state bits the
    constructor tests. *)
Record sstream : Type := mk_sstream {
  buf : string;
  failbit : bool;
  eofbit : bool
}.

(** [std::isspace] in the "C" locale. *)
Definition isspace (c : ascii) : bool :=
  let n := nat_of_ascii c in
  (n =? 32)%nat || ((9 <=? n)%nat && (n <=? 13)%nat).

Fixpoint skipws (s : string) : string :=
  match s with
  | String c s' => if isspace c then skipws s' else s
  | EmptyString => s
  end.

Definition is_empty (s : string) : bool :=
  match s with
  | EmptyString => true
  | String _ _ => false
  end.

(** The standard library's [num_get] for the integer members and for
    [Double_t]: from the characters at hand, the value read and the characters
    left, or [None] when they do not start with a number of that type. *)
Class NumGet : Type := {
  get_Int_t : string -> option (Z * string);
  get_Double_t : string -> option (D * string)
}.

Context {num_get : NumGet}.

(** Formatted extraction [ss >> x].  The sentry fails when the stream is not
    [good()] and skips white space; reaching the end there sets [eofbit] and
    [failbit].  A number that ends with the stream sets [eofbit]; a failed
    conversion sets [failbit] and leaves [x] as it was. *)
Definition extract {A : Type} (get : string -> option (A * string))
    (x : A) (ss : sstream) : sstream * A :=
  if failbit ss || eofbit ss then (mk_sstream (buf ss) true (eofbit ss), x)
  else
    let s := skipws (buf ss) in
    if is_empty s then (mk_sstream s true true, x)
    else
      match get s with
      | Some (v, rest) => (mk_sstream rest false (is_empty rest), v)
      | None => (mk_sstream s true false, x)
      end.

(** The member initialisers of the constructor. *)
Definition ParticleMC_init : ParticleMC :=
  mkParticleMC (-1) (-1) Int_t_min (-1) (-1) (-1)
    (d_lit 0) (d_lit 0) (d_lit 0) (d_lit 0) (d_lit 0)
    (d_lit 0) (d_lit 0) (d_lit 0) (d_lit 0) Int_t_min
    (d_lit 0) (d_lit 0) (d_lit 0) (d_lit 0) (d_lit 0)
    (d_lit 0) (d_lit 0) (d_lit 0) (d_lit 0) (d_lit 0).

(** [ParticleMC::ParticleMC(const std::string& line)]: the particle built, or
    the exception thrown out of the constructor. *)
Definition ParticleMC_new (line : string) : exception + ParticleMC :=
  let this := ParticleMC_init in
  if negb (is_empty line) then
    let ss := mk_sstream line false false in
    let '(ss, I') := extract get_Int_t (I this) ss in
    let '(ss, KS') := extract get_Int_t (KS this) ss in
    let '(ss, id') := extract get_Int_t (id this) ss in
    let '(ss, orig') := extract get_Int_t (orig this) ss in
    let '(ss, daughter') := extract get_Int_t (daughter this) ss in
    let '(ss, ldaughter') := extract get_Int_t (ldaughter this) ss in
    let '(ss, px') := extract get_Double_t (px this) ss in
    let '(ss, py') := extract get_Double_t (py this) ss in
    let '(ss, pz') := extract get_Double_t (pz this) ss in
    let '(ss, E') := extract get_Double_t (E this) ss in
    let '(ss, m') := extract get_Double_t (m this) ss in
    let '(ss, xv') := extract get_Double_t (xv this) ss in
    let '(ss, yv') := extract get_Double_t (yv this) ss in
    let '(ss, zv') := extract get_Double_t (zv this) ss in
    if failbit ss || negb (eofbit ss)
    then inl (runtime_error ("Bad particle input: " ++ line)%string)
    else
      inr (ComputeDerivedQuantities
             (mkParticleMC I' KS' id' orig' daughter' ldaughter'
                px' py' pz' E' m' (pt this) xv' yv' zv' (parentId this)
                (p this) (theta this) (phi this) (rapidity this) (eta this)
                (z this) (xFeynman this) (thetaGamma this) (ptVsGamma this)
                (phiPrf this)))
  else inr this.

(** *** What it means for a line to parse *)

(** The fourteen fields of an input record. *)
Record Fields : Type := mkFields {
  f_I : Z;
  f_KS : Z;
  f_id : Z;
  f_orig : Z;
  f_daughter : Z;
  f_ldaughter : Z;
  f_px : D;
  f_py : D;
  f_pz : D;
  f_E : D;
  f_m : D;
  f_xv : D;
  f_yv : D;
  f_zv : D
}.

(** After optional white space, [s] starts with a number of value [v],
    followed by [rest]. *)
Definition reads {A : Type} (get : string -> option (A * string))
    (s : string) (v : A) (rest : string) : Prop :=
  is_empty (skipws s) = false /\ get (skipws s) = Some (v, rest).

(** The line consists of the fourteen fields, in order, and nothing after the
    last one. *)
Definition parses (line : string) (f : Fields) : Prop :=
  exists r1 r2 r3 r4 r5 r6 r7 r8 r9 r10 r11 r12 r13 : string,
    reads get_Int_t line (f_I f) r1 /\
    reads get_Int_t r1 (f_KS f) r2 /\
    reads get_Int_t r2 (f_id f) r3 /\
    reads get_Int_t r3 (f_orig f) r4 /\
    reads get_Int_t r4 (f_daughter f) r5 /\
    reads get_Int_t r5 (f_ldaughter f) r6 /\
    reads get_Double_t r6 (f_px f) r7 /\
    reads get_Double_t r7 (f_py f) r8 /\
    reads get_Double_t r8 (f_pz f) r9 /\
    reads get_Double_t r9 (f_E f) r10 /\
    reads get_Double_t r10 (f_m f) r11 /\
    reads get_Double_t r11 (f_xv f) r12 /\
    reads get_Double_t r12 (f_yv f) r13 /\
    reads get_Double_t r13 (f_zv f) EmptyString.

(** The particle holding the fields read, every other member as
    initialised. *)
Definition particle_of_fields (f : Fields) : ParticleMC :=
  mkParticleMC (f_I f) (f_KS f) (f_id f) (f_orig f) (f_daughter f)
    (f_ldaughter f) (f_px f) (f_py f) (f_pz f) (f_E f) (f_m f)
    (pt ParticleMC_init) (f_xv f) (f_yv f) (f_zv f)
    (parentId ParticleMC_init) (p ParticleMC_init) (theta ParticleMC_init)
    (phi ParticleMC_init) (rapidity ParticleMC_init) (eta ParticleMC_init)
    (z ParticleMC_init) (xFeynman ParticleMC_init)
    (thetaGamma ParticleMC_init) (ptVsGamma ParticleMC_init)
    (phiPrf ParticleMC_init).

(** ** Beam identification ([ParticleIdentifier]) *)

(** The overridable classification predicates the header declares, and the
    data member [mLeptonBeamPdgCode]. *)
Class ParticleIdentifier : Type := {
  mLeptonBeamPdgCode : Z;
  isBeamLepton : ParticleMC -> bool;
  isBeamNucleon : ParticleMC -> bool;
  isScatteredLepton : ParticleMC -> bool;
  IsVirtualPhoton : ParticleMC -> bool;
  SkipParticle : ParticleMC -> bool
}.

(** [ParticleIdentifier::SetLeptonBeamPdgCode] and
    [ParticleIdentifier::GetLeptonBeamPdgCode]. *)
Definition SetLeptonBeamPdgCode (pdgCode : Z) (this : ParticleIdentifier)
  : ParticleIdentifier :=
  {| mLeptonBeamPdgCode := pdgCode;
     isBeamLepton := @isBeamLepton this;
     isBeamNucleon := @isBeamNucleon this;
     isScatteredLepton := @isScatteredLepton this;
     IsVirtualPhoton := @IsVirtualPhoton this;
     SkipParticle := @SkipParticle this |}.

Definition GetLeptonBeamPdgCode (this : ParticleIdentifier) : Z :=
  @mLeptonBeamPdgCode this.

Context {identifier : ParticleIdentifier}.

(** The roles a beam particle can have; the first four are the entries of the
    beam summary, in its fixed order. *)
Inductive BeamRole : Type :=
| IncidentLepton
| IncidentHadron
| ExchangedBoson
| ScatteredLepton
| ScatteredHadron.

(** Modelled from the spec: the definitions of [IdentifyBeams] are in
    ParticleIdentifier.cxx, which is not among the sources; the header only
    declares and documents them.  Section 4.3 of the spec gives the rules,
    one definition below for each.  This one: the highest-energy particle of
    a list, the earlier one on a tie. *)
Fixpoint highest_energy (best : option ParticleMC) (l : list ParticleMC)
  : option ParticleMC :=
  match l with
  | [] => best
  | q :: l' =>
      match best with
      | None => highest_energy (Some q) l'
      | Some b =>
          if E b <? E q then highest_energy (Some q) l'
          else highest_energy best l'
      end
  end.

(** Modelled from the spec: the scattered lepton is the particle accepted by
    [isScatteredLepton] whose origin index is the incident lepton's index or,
    failing that, the accepted particle of highest energy. *)
Definition find_scattered_lepton (event : EventMC)
    (lepton : option ParticleMC) : option ParticleMC :=
  let candidates := filter isScatteredLepton (particles event) in
  let traced :=
    match lepton with
    | Some l => find (fun q => (orig q =? I l)%Z) candidates
    | None => None
    end in
  match traced with
  | Some q => Some q
  | None => highest_energy None candidates
  end.

(** Modelled from the spec: the exchanged boson is the first explicit boson
    entry or, failing that, incident lepton minus scattered lepton, which is
    no entry of the particle list. *)
Definition find_boson (event : EventMC)
    (lepton scattered : option ParticleMC) : option ParticleMC :=
  match find IsVirtualPhoton (particles event) with
  | Some b => Some b
  | None =>
      match lepton, scattered with
      | Some l, Some s =>
          Some (Set4Vector (lv_sub (Get4Vector l) (Get4Vector s))
                  ParticleMC_init)
      | _, _ => None
      end
  end.

(** Modelled from the spec: the incident lepton and the incident hadron are
    the first particles the respective predicate accepts; the scattered
    hadron is never found, whatever the event holds. *)
Definition identify (event : EventMC) (role : BeamRole)
  : option ParticleMC :=
  let lepton := find isBeamLepton (particles event) in
  let scattered := find_scattered_lepton event lepton in
  match role with
  | IncidentLepton => lepton
  | IncidentHadron => find isBeamNucleon (particles event)
  | ExchangedBoson => find_boson event lepton scattered
  | ScatteredLepton => scattered
  | ScatteredHadron => None
  end.

Definition is_null (o : option ParticleMC) : bool :=
  match o with
  | None => true
  | Some _ => false
  end.

(** Modelled from the spec:
    [IdentifyBeams(const VirtualEvent&, std::vector<const VirtualParticle*>&)],
    the vector filled (four entries: incident lepton, incident hadron,
    exchanged boson, scattered lepton; null where not found) and the value
    returned (true when no entry is null). *)
Definition IdentifyBeams_vector (event : EventMC)
  : list (option ParticleMC) * bool :=
  let beams := map (identify event)
                 [IncidentLepton; IncidentHadron; ExchangedBoson;
                  ScatteredLepton] in
  (beams, negb (existsb is_null beams)).

(** Modelled from the spec: [IdentifyBeams(const VirtualEvent&,
    BeamParticles&)], the beam summary stored, by role, and the value
    returned. *)
Definition IdentifyBeams (event : EventMC)
  : (BeamRole -> option ParticleMC) * bool :=
  (identify event, snd (IdentifyBeams_vector event)).

End Model.

Arguments TVector3 D : clear implicits.
Arguments TLorentzVector D : clear implicits.
Arguments ParticleMC D : clear implicits.
Arguments EventMC D : clear implicits.
Arguments Fields D : clear implicits.
Arguments NumGet D : clear implicits.
Arguments RootOps D : clear implicits.
Arguments ParticleIdentifier D : clear implicits.

(** ** Exact arithmetic: [Double_t] as the real numbers *)

Module Exact.
Local Open Scope R_scope.

Definition R_le (x y : R) : bool := if Rle_dec x y then true else false.
Definition R_lt (x y : R) : bool := if Rlt_dec x y then true else false.
Definition R_eq (x y : R) : bool := if Req_dec_T x y then true else false.

(** [pow(x, y)]: the integer power when [y] is a whole number, otherwise
    [exp(y * ln x)]. *)
Definition R_pow (x y : R) : R :=
  if Req_dec_T y (IZR (Int_part y)) then powerRZ x (Int_part y)
  else Rpower x y.

(** [atan2(y, x)]: the angle of the point [(x, y)], in (-pi, pi]. *)
Definition R_atan2 (y x : R) : R :=
  if Rlt_dec 0 x then atan (y / x)
  else if Rlt_dec x 0 then
    if Rle_dec 0 y then atan (y / x) + PI else atan (y / x) - PI
  else if Rlt_dec 0 y then PI / 2
  else if Rlt_dec y 0 then - (PI / 2)
  else 0.

#[global] Instance R_double : DoubleOps R := {|
  d_lit := IZR;
  d_half := / 2;
  d_twopi := 2 * PI;
  d_add := Rplus;
  d_sub := Rminus;
  d_mul := Rmult;
  d_div := Rdiv;
  d_neg := Ropp;
  d_le := R_le;
  d_lt := R_lt;
  d_eq := R_eq;
  d_isnan := fun _ => false;
  d_sqrt := R_sqrt.sqrt;
  d_pow := R_pow;
  d_log := ln;
  d_atan2 := R_atan2
|}.

End Exact.

(** ** IEEE-754 arithmetic: [Double_t] as binary64 *)

Module Binary64.
Local Open Scope float_scope.

Definition of_Z (n : Z) : float :=
  match n with
  | Z0 => 0
  | Zpos _ => of_uint63 (Uint63.of_Z n)
  | Zneg _ => - of_uint63 (Uint63.of_Z (- n))
  end.

(** The integer part of a finite float (0 for NaN and the infinities). *)
Definition to_Z (x : float) : Z :=
  match Prim2SF x with
  | S754_finite s mant e =>
      let v := (if 0 <=? e then Zpos mant * 2 ^ e
                else Zpos mant / 2 ^ (- e))%Z in
      if s then (- v)%Z else v
  | _ => 0%Z
  end.

Definition is_integer (x : float) : bool :=
  negb (is_nan x) && negb (is_infinity x) && (of_Z (to_Z x) =? x).

Definition copysign (v y : float) : float :=
  if get_sign y then - abs v else abs v.

Definition ln2 : float := 0x1.62e42fefa39efp-1.
Definition pi : float := 0x1.921fb54442d18p+1.
Definition twopi : float := 0x1.921fb54442d18p+2.

(** Sum of [t^(2i+1) / (2i+1)] (alternating when [alt]) for [n] terms,
    starting at the term [term] of odd index [k]. *)
Fixpoint odd_series (n : nat) (alt : bool) (t2 term k : float) : float :=
  match n with
  | O => 0
  | S n' =>
      let next := if alt then - (term * t2) else term * t2 in
      term / k + odd_series n' alt t2 next (k + 2)
  end.

(** Sum of [r^i / i!] for [n] terms, starting at the term [term] of
    index [k]. *)
Fixpoint exp_series (n : nat) (r term k : float) : float :=
  match n with
  | O => 0
  | S n' => term + exp_series n' r (term * r / k) (k + 1)
  end.

(** libm's [log], [exp], [pow] and [atan2].  The C standard (Annex F) fixes
    their values at the special arguments (NaN, zeros, infinities, 1);
    everywhere else the values below come from short series evaluations and
    are close to, but not bit for bit, those of a given libm. *)
Definition log (x : float) : float :=
  if is_nan x then nan
  else if x <? 0 then nan
  else if x =? 0 then neg_infinity
  else if x =? infinity then infinity
  else if x =? 1 then 0
  else
    let (mant, e) := Z.frexp x in
    let t := (mant - 1) / (mant + 1) in
    of_Z e * ln2 + 2 * odd_series 30 false (t * t) t 1.

Definition exp (x : float) : float :=
  if is_nan x then nan
  else if 710 <? x then infinity
  else if x <? -746 then 0
  else
    let k := to_Z (x / ln2) in
    let r := x - of_Z k * ln2 in
    Z.ldexp (exp_series 30 r 1 1) k.

Fixpoint pow_pos (x : float) (n : positive) : float :=
  match n with
  | xH => x
  | xO n' => let h := pow_pos x n' in h * h
  | xI n' => let h := pow_pos x n' in h * h * x
  end.

Definition pow (x y : float) : float :=
  if y =? 0 then 1
  else if x =? 1 then 1
  else if is_nan x || is_nan y then nan
  else if is_integer y && (abs y <=? 1024) then
    match to_Z y with
    | Zpos n => pow_pos x n
    | Zneg n => 1 / pow_pos x n
    | Z0 => 1
    end
  else if x <? 0 then nan
  else exp (y * log x).

(** [atan] on [-1, 1]: two halvings of the angle, then the series. *)
Definition atan_small (t : float) : float :=
  let h1 := t / (1 + sqrt (1 + t * t)) in
  let h2 := h1 / (1 + sqrt (1 + h1 * h1)) in
  4 * odd_series 30 true (h2 * h2) h2 1.

Definition atan (t : float) : float :=
  if is_nan t then nan
  else if abs t <=? 1 then atan_small t
  else copysign (pi / 2 - atan_small (1 / abs t)) t.

Definition atan2 (y x : float) : float :=
  if is_nan x || is_nan y then nan
  else if y =? 0 then
    if get_sign x then copysign pi y else y
  else if x =? 0 then copysign (pi / 2) y
  else if is_infinity y then
    if x =? infinity then copysign (pi / 4) y
    else if x =? neg_infinity then copysign (3 * pi / 4) y
    else copysign (pi / 2) y
  else if x =? infinity then copysign 0 y
  else if x =? neg_infinity then copysign pi y
  else if 0 <? x then atan (y / x)
  else copysign (pi - atan (abs (y / x))) y.

#[global] Instance binary64_double : DoubleOps float := {|
  d_lit := of_Z;
  d_half := 0.5;
  d_twopi := twopi;
  d_add := add;
  d_sub := sub;
  d_mul := mul;
  d_div := div;
  d_neg := opp;
  d_le := leb;
  d_lt := ltb;
  d_eq := eqb;
  d_isnan := is_nan;
  d_sqrt := sqrt;
  d_pow := pow;
  d_log := log;
  d_atan2 := atan2
|}.

End Binary64.

(** ** Properties stated on the models *)

Section Frames.

Context {D : Type} {ops : DoubleOps D}.

(** The particle with its four-momentum boosted by velocity [b]. *)
Definition boost_particle (b : TVector3 D) (q : ParticleMC D) : ParticleMC D :=
  Set4Vector (Boost b (Get4Vector q)) q.

(** The event with every track boosted by velocity [b]. *)
Definition boost_event (b : TVector3 D) (event : EventMC D) : EventMC D :=
  mkEventMC (map (boost_particle b) (particles event)) (W2 event).

(** The event-dependent members still hold what the constructor gave them. *)
Definition event_members_unset (q : ParticleMC D) : Prop :=
  z q = d_lit 0 /\ xFeynman q = d_lit 0 /\ thetaGamma q = d_lit 0 /\
  ptVsGamma q = d_lit 0 /\ phiPrf q = d_lit 0 /\ parentId q = Int_t_min.

End Frames.

(** The ranges of the frame-independent members, on the reals. *)
Definition kinematic_ranges (q : ParticleMC R) : Prop :=
  (0 <= pt q /\ pt q <= p q /\ 0 <= theta q <= PI /\ 0 <= phi q < 2 * PI)%R.

(** The case in which rapidity and pseudorapidity get the dummy value, with
    [p] the total momentum [ComputeDerivedQuantities] computes. *)
Definition dummy_case (this : ParticleMC R) : Prop :=
  let p' := p (ComputeDerivedQuantities this) in
  (E this - pz this <= 0 \/ E this + pz this <= 0 \/
   p' - pz this = 0 \/ p' + pz this = 0)%R.

(** A finite, light-like four-momentum, (px, py, pz, E) = (2^700, 0, 0,
    2^700), whose px squared exceeds the largest binary64 number. *)
Definition overflow_vector : TLorentzVector float :=
  (mkTLorentzVector 0x1p+700 0 0 0x1p+700)%float.

(** A finite four-momentum, (px, py, pz, E) = (1, -2^-70, 0, 2), whose
    azimuth is a negative angle far smaller than the spacing of the binary64
    numbers next to 2 pi. *)
Definition rounding_vector : TLorentzVector float :=
  (mkTLorentzVector 1 (-0x1p-70) 0 2)%float.

(** A Lorentz boost: a velocity, in units of c, slower than light. *)
Record LorentzBoost : Type := mkLorentzBoost {
  velocity : TVector3 R;
  slower_than_light :
    (vX velocity * vX velocity + vY velocity * vY velocity
     + vZ velocity * vZ velocity < 1)%R
}.

(** ** Example data *)

Section Examples.

Context {D : Type} {ops : DoubleOps D}.

(** A particle with the given lineage and four-momentum. *)
Definition example_particle (index status pdg parent first last : Z)
    (v : TLorentzVector D) : ParticleMC D :=
  Set4Vector v
    (mkParticleMC index status pdg parent first last
       (d_lit 0) (d_lit 0) (d_lit 0) (d_lit 0) (d_lit 0)
       (d_lit 0) (d_lit 0) (d_lit 0) (d_lit 0) Int_t_min
       (d_lit 0) (d_lit 0) (d_lit 0) (d_lit 0) (d_lit 0)
       (d_lit 0) (d_lit 0) (d_lit 0) (d_lit 0) (d_lit 0)).

(** The three-particle event of the spec's parent/child property: the first
    particle has no parent and one child, the second particle; the second
    particle's parent is the first. *)
Definition example_beam : ParticleMC D :=
  example_particle 1 21 11 0 2 2
    (mkTLorentzVector (d_lit 0) (d_lit 0) (d_lit (-10)) (d_lit 10)).

Definition example_child : ParticleMC D :=
  example_particle 2 1 11 1 0 0
    (mkTLorentzVector (d_lit 3) (d_lit 0) (d_lit (-4)) (d_lit 5)).

Definition example_other : ParticleMC D :=
  example_particle 3 21 2212 0 0 0
    (mkTLorentzVector (d_lit 0) (d_lit 0) (d_lit 100) (d_lit 100)).

Definition example_event : EventMC D :=
  mkEventMC [example_beam; example_child; example_other] (d_lit 100).

End Examples.

(** A [num_get] for the examples: decimal integers with an optional sign,
    also where a [Double_t] is read. *)
Module Decimal.

Definition is_digit (c : ascii) : bool :=
  let n := nat_of_ascii c in (48 <=? n)%nat && (n <=? 57)%nat.

Fixpoint read_digits (s : string) (acc : Z) : Z * string :=
  match s with
  | String c s' =>
      if is_digit c
      then read_digits s' (10 * acc + Z.of_nat (nat_of_ascii c) - 48)%Z
      else (acc, s)
  | EmptyString => (acc, s)
  end.

Definition starts_with_digit (s : string) : bool :=
  match s with
  | String c _ => is_digit c
  | EmptyString => false
  end.

Definition read_integer (s : string) : option (Z * string) :=
  match s with
  | String "-"%char s' =>
      if starts_with_digit s'
      then let (v, r) := read_digits s' 0 in Some ((- v)%Z, r)
      else None
  | String "+"%char s' =>
      if starts_with_digit s' then Some (read_digits s' 0) else None
  | _ => if starts_with_digit s then Some (read_digits s 0) else None
  end.

Definition read_whole {D : Type} {ops : DoubleOps D} (s : string)
  : option (D * string) :=
  match read_integer s with
  | Some (v, r) => Some (d_lit v, r)
  | None => None
  end.

#[global] Instance whole_numbers {D : Type} {ops : DoubleOps D}
  : NumGet D := {|
  get_Int_t := read_integer;
  get_Double_t := read_whole
|}.

End Decimal.

(** An input record with whole-number fields, and the fields it holds. *)
Definition example_line : string := "2 1 11 1 0 0 3 0 -4 5 0 0 0 0".

Definition example_fields {D : Type} {ops : DoubleOps D} : Fields D :=
  mkFields 2 1 11 1 0 0 (d_lit 3) (d_lit 0) (d_lit (-4)) (d_lit 5)
    (d_lit 0) (d_lit 0) (d_lit 0) (d_lit 0).

(** The conditions under which [GetChild(u)] has a child to return: the
    particle belongs to an event, the first-daughter index is at least 1,
    [u] is below the number of children, and the 0-based index
    first-daughter + u - 1 is within the event's particle list. *)
Definition child_index_valid {D : Type} (event : option (EventMC D))
    (this : ParticleMC D) (u : Z) : Prop :=
  exists ev, event = Some ev /\
    (1 <= daughter this /\ u < GetNChildren this /\
     0 <= daughter this + u - 1 < GetNTracks ev)%Z.

(** ** The remaining member functions *)

(** [sin], [cos] and [tan] of libm, which only
    [Get4VectorInHadronBosonFrame] uses. *)
Class TrigOps (D : Type) : Type := {
  d_sin : D -> D;
  d_cos : D -> D;
  d_tan : D -> D
}.

#[global] Instance R_trig : TrigOps R := {|
  d_sin := sin;
  d_cos := cos;
  d_tan := tan
|}.

(** Conversion to [UShort_t]: the value modulo 2^16. *)
Definition UShort_t (x : Z) : Z := x mod 2 ^ 16.

Section Members.

Context {D : Type} {ops : DoubleOps D}.

(** [ParticleMC::SetVertex]. *)
Definition SetVertex (v : TVector3 D) (this : ParticleMC D) : ParticleMC D :=
  mkParticleMC (I this) (KS this) (id this) (orig this) (daughter this)
    (ldaughter this) (px this) (py this) (pz this) (E this) (m this)
    (pt this) (vX v) (vY v) (vZ v) (parentId this)
    (p this) (theta this) (phi this) (rapidity this) (eta this)
    (z this) (xFeynman this) (thetaGamma this) (ptVsGamma this)
    (phiPrf this).

(** [ParticleMC::Get4VectorInHadronBosonFrame]. *)
Definition Get4VectorInHadronBosonFrame {trig : TrigOps D}
    (this : ParticleMC D) : TLorentzVector D :=
  let p_ := d_div (ptVsGamma this) (d_sin (ptVsGamma this)) in
  let e_ := d_sqrt (d_add (d_pow p_ (d_lit 2)) (d_pow (m this) (d_lit 2))) in
  let px_ := d_mul (ptVsGamma this) (d_cos (phiPrf this)) in
  let py_ := d_mul (ptVsGamma this) (d_sin (phiPrf this)) in
  let pz_ := d_div (ptVsGamma this) (d_tan (thetaGamma this)) in
  mkTLorentzVector px_ py_ pz_ e_.

(** The loop of [ParticleMC::HasChild], [for(UInt_t i(0); i <
    GetNChildren(); ++i)], with [n] rounds left; [GetChild] takes its
    argument as a [UShort_t], and [Id()] is the species code. *)
Fixpoint HasChild_loop (event : option (EventMC D)) (this : ParticleMC D)
    (pdg : Z) (i : Z) (n : nat) : bool :=
  match n with
  | O => false
  | S n' =>
      match fst (GetChild event this (UShort_t i)) with
      | None => HasChild_loop event this pdg (i + 1) n'
      | Some c =>
          if (pdg =? id c)%Z then true
          else HasChild_loop event this pdg (i + 1) n'
      end
  end.

(** [ParticleMC::HasChild]. *)
Definition HasChild (event : option (EventMC D)) (this : ParticleMC D)
    (pdg : Z) : bool :=
  HasChild_loop event this pdg 0 (Z.to_nat (UInt_t (GetNChildren this))).

(** The particle with the sign of its longitudinal momentum reversed. *)
Definition reflect_z (this : ParticleMC D) : ParticleMC D :=
  Set4Vector
    (mkTLorentzVector (px this) (py this) (d_neg (pz this)) (E this)) this.

End Members.

(** A four-momentum is time-like, with positive energy. *)
Definition timelike (v : TLorentzVector R) : Prop :=
  (0 < Energy v /\
   Px v * Px v + Py v * Py v + Pz v * Pz v < Energy v * Energy v)%R.

(** The three-particle event with a further particle, the photon that the
    frame-dependent quantities take as the exchanged boson; the particle at
    index 0 now has the daughters 2 to 4. *)
Definition example_parent {D : Type} {ops : DoubleOps D} : ParticleMC D :=
  example_particle 1 21 11 0 2 4
    (mkTLorentzVector (d_lit 0) (d_lit 0) (d_lit (-10)) (d_lit 10)).

Definition example_photon {D : Type} {ops : DoubleOps D} : ParticleMC D :=
  example_particle 4 21 22 1 0 0
    (mkTLorentzVector (d_lit (-3)) (d_lit 0) (d_lit (-6)) (d_lit 5)).

Definition example_event4 {D : Type} {ops : DoubleOps D} : EventMC D :=
  mkEventMC [example_parent; example_child; example_other; example_photon]
    (d_lit 100).

(** The string consists of white space only. *)
Fixpoint all_space (s : string) : bool :=
  match s with
  | EmptyString => true
  | String c s' => isspace c && all_space s'
  end.

(** ** ROOT's rotations as matrices of real numbers *)

Module RootMatrices.
Local Open Scope R_scope.

(** [TRotation]: the 3x3 matrix with the members [fxx] to [fzz]. *)
Record Matrix3 : Type := mkMatrix3 {
  rxx : R; rxy : R; rxz : R;
  ryx : R; ryy : R; ryz : R;
  rzx : R; rzy : R; rzz : R
}.

(** [TLorentzRotation]: the 4x4 matrix with the members [fxx] to [ftt]. *)
Record Matrix4 : Type := mkMatrix4 {
  fxx : R; fxy : R; fxz : R; fxt : R;
  fyx : R; fyy : R; fyz : R; fyt : R;
  fzx : R; fzy : R; fzz : R; fzt : R;
  ftx : R; fty : R; ftz : R; ftt : R
}.

(** [TRotation()]: the identity. *)
Definition Identity3 : Matrix3 := mkMatrix3 1 0 0 0 1 0 0 0 1.

(** [TRotation::Inverse]: the transposed matrix. *)
Definition Inverse3 (r : Matrix3) : Matrix3 :=
  mkMatrix3 (rxx r) (ryx r) (rzx r)
            (rxy r) (ryy r) (rzy r)
            (rxz r) (ryz r) (rzz r).

(** [TLorentzRotation(const TVector3&)], that is
    [TLorentzRotation::SetBoost(bx, by, bz)]. *)
Definition SetBoost (b : TVector3 R) : Matrix4 :=
  let bp2 := vX b * vX b + vY b * vY b + vZ b * vZ b in
  let gamma := 1 / R_sqrt.sqrt (1 - bp2) in
  let bgamma := gamma * gamma / (1 + gamma) in
  mkMatrix4
    (1 + bgamma * vX b * vX b) (bgamma * vX b * vY b)
    (bgamma * vX b * vZ b) (gamma * vX b)
    (bgamma * vX b * vY b) (1 + bgamma * vY b * vY b)
    (bgamma * vY b * vZ b) (gamma * vY b)
    (bgamma * vX b * vZ b) (bgamma * vY b * vZ b)
    (1 + bgamma * vZ b * vZ b) (gamma * vZ b)
    (gamma * vX b) (gamma * vY b) (gamma * vZ b) gamma.

(** [TLorentzRotation(const TRotation&)]: the rotation in the space part,
    the time left alone. *)
Definition OfRotation (r : Matrix3) : Matrix4 :=
  mkMatrix4 (rxx r) (rxy r) (rxz r) 0
            (ryx r) (ryy r) (ryz r) 0
            (rzx r) (rzy r) (rzz r) 0
            0 0 0 1.

(** [TLorentzRotation::MatrixMultiplication]: the product [a b]. *)
Definition MatrixMultiplication (a b : Matrix4) : Matrix4 :=
  mkMatrix4
    (fxx a * fxx b + fxy a * fyx b + fxz a * fzx b + fxt a * ftx b)
    (fxx a * fxy b + fxy a * fyy b + fxz a * fzy b + fxt a * fty b)
    (fxx a * fxz b + fxy a * fyz b + fxz a * fzz b + fxt a * ftz b)
    (fxx a * fxt b + fxy a * fyt b + fxz a * fzt b + fxt a * ftt b)
    (fyx a * fxx b + fyy a * fyx b + fyz a * fzx b + fyt a * ftx b)
    (fyx a * fxy b + fyy a * fyy b + fyz a * fzy b + fyt a * fty b)
    (fyx a * fxz b + fyy a * fyz b + fyz a * fzz b + fyt a * ftz b)
    (fyx a * fxt b + fyy a * fyt b + fyz a * fzt b + fyt a * ftt b)
    (fzx a * fxx b + fzy a * fyx b + fzz a * fzx b + fzt a * ftx b)
    (fzx a * fxy b + fzy a * fyy b + fzz a * fzy b + fzt a * fty b)
    (fzx a * fxz b + fzy a * fyz b + fzz a * fzz b + fzt a * ftz b)
    (fzx a * fxt b + fzy a * fyt b + fzz a * fzt b + fzt a * ftt b)
    (ftx a * fxx b + fty a * fyx b + ftz a * fzx b + ftt a * ftx b)
    (ftx a * fxy b + fty a * fyy b + ftz a * fzy b + ftt a * fty b)
    (ftx a * fxz b + fty a * fyz b + ftz a * fzz b + ftt a * ftz b)
    (ftx a * fxt b + fty a * fyt b + ftz a * fzt b + ftt a * ftt b).

(** [TLorentzRotation::Transform(const TRotation& m)]: the product of
    [TLorentzRotation(m)] with this matrix, in this order, replaces this
    matrix. *)
Definition Transform4 (a : Matrix4) (r : Matrix3) : Matrix4 :=
  MatrixMultiplication (OfRotation r) a.

(** [TLorentzRotation::VectorMultiplication], which [v *= m] on a
    [TLorentzVector] assigns to [v]. *)
Definition VectorMultiplication (a : Matrix4) (v : TLorentzVector R)
  : TLorentzVector R :=
  mkTLorentzVector
    (fxx a * Px v + fxy a * Py v + fxz a * Pz v + fxt a * Energy v)
    (fyx a * Px v + fyy a * Py v + fyz a * Pz v + fyt a * Energy v)
    (fzx a * Px v + fzy a * Py v + fzz a * Pz v + fzt a * Energy v)
    (ftx a * Px v + fty a * Py v + ftz a * Pz v + ftt a * Energy v).

(** ROOT's classes by these matrices.  [TRotation::SetZAxis] and
    [computeHermesPhiH] are left open: whatever matrix the one and whatever
    number the other returns. *)
Definition matrices
    (SetZAxis3 : Matrix3 -> TVector3 R -> Matrix3)
    (phiH : TLorentzVector R -> TLorentzVector R -> TLorentzVector R -> R)
  : RootOps R :=
  {| TLorentzRotation := Matrix4;
     TRotation := Matrix3;
     LorentzRotation := SetBoost;
     Rotation := Identity3;
     SetZAxis := SetZAxis3;
     Inverse := Inverse3;
     Transform := Transform4;
     lv_transform := fun v a => VectorMultiplication a v;
     computeHermesPhiH := phiH |}.

End RootMatrices.

(** What [computeBoost] relies on in ROOT.  [TLorentzRotation(b)], for a
    velocity [b] slower than light, acts on a four-vector as the boost
    [TLorentzVector::Boost(b)] does. *)
Definition acts_as_boost (root : RootOps R) : Prop :=
  forall (b : TVector3 R) (v : TLorentzVector R),
    (vX b * vX b + vY b * vY b + vZ b * vZ b < 1)%R ->
    lv_transform v (LorentzRotation b) = Boost b v.

(** [Transform] by a rotation turns the space part only: a four-vector that
    the Lorentz rotation brings to rest stays as it is. *)
Definition rotation_keeps_rest (root : RootOps R) : Prop :=
  forall (a : TLorentzRotation) (r : TRotation) (v : TLorentzVector R),
    Px (lv_transform v a) = 0%R -> Py (lv_transform v a) = 0%R ->
    Pz (lv_transform v a) = 0%R ->
    lv_transform v (Transform a r) = lv_transform v a.

(** * Proofs *)

(** ** The two branches of [ComputeDerivedQuantities], in any arithmetic *)

Section Branches.

Context {D : Type} {ops : DoubleOps D}.

(** Rapidity and pseudorapidity are the dummy value or the two logarithms,
    as the four tests decide; this holds for the reals and for binary64
    alike. *)
Lemma CDQ_branches (this : ParticleMC D) :
  let q := ComputeDerivedQuantities this in
  let dummy :=
    d_le (d_sub (E this) (pz this)) (d_lit 0)
    || d_eq (d_sub (p q) (pz this)) (d_lit 0)
    || d_eq (d_add (p q) (pz this)) (d_lit 0)
    || d_le (d_add (E this) (pz this)) (d_lit 0) in
  (dummy = true -> rapidity q = d_lit (-19) /\ eta q = d_lit (-19)) /\
  (dummy = false ->
   rapidity q =
     d_mul d_half
       (d_log (d_div (d_add (E this) (pz this)) (d_sub (E this) (pz this))))
   /\
   eta q =
     d_mul d_half
       (d_log (d_div (d_add (p q) (pz this)) (d_sub (p q) (pz this))))).
Proof.
  cbv zeta. unfold ComputeDerivedQuantities. cbn [rapidity eta p].
  split; intros ->; split; reflexivity.
Qed.

End Branches.

(** ** Real arithmetic *)

Section ExactLemmas.
Import Exact.
Local Open Scope R_scope.

Lemma R_le_true (x y : R) : R_le x y = true <-> x <= y.
Proof. unfold R_le. destruct (Rle_dec x y); split; intros; try easy. Qed.

Lemma R_lt_true (x y : R) : R_lt x y = true <-> x < y.
Proof. unfold R_lt. destruct (Rlt_dec x y); split; intros; try easy. Qed.

Lemma R_eq_true (x y : R) : R_eq x y = true <-> x = y.
Proof. unfold R_eq. destruct (Req_dec_T x y); split; intros; try easy. Qed.

Lemma R_pow_2 (x : R) : R_pow x 2 = x * x.
Proof.
  unfold R_pow.
  assert (H : Int_part 2 = 2%Z) by (symmetry; apply Int_part_spec; lra).
  rewrite H. destruct (Req_dec_T 2 2) as [_ | N]; [ | now elim N ].
  simpl. lra.
Qed.

Lemma R_atan2_range (y x : R) : - PI < R_atan2 y x <= PI.
Proof.
  pose proof PI_RGT_0 as Hpi.
  unfold R_atan2.
  destruct (Rlt_dec 0 x) as [Hx | Hx].
  - pose proof (atan_bound (y / x)). lra.
  - destruct (Rlt_dec x 0) as [Hx' | Hx'].
    + destruct (Rle_dec 0 y) as [Hy | Hy].
      * assert (y / x <= 0).
        { unfold Rdiv. assert (/ x < 0) by now apply Rinv_lt_0_compat. nra. }
        assert (atan (y / x) <= 0).
        { destruct H as [H | H].
          - left. rewrite <- atan_0. now apply atan_increasing.
          - rewrite H, atan_0. lra. }
        pose proof (atan_bound (y / x)). lra.
      * assert (0 < y / x).
        { unfold Rdiv. assert (/ x < 0) by now apply Rinv_lt_0_compat. nra. }
        assert (0 < atan (y / x)).
        { rewrite <- atan_0. now apply atan_increasing. }
        pose proof (atan_bound (y / x)). lra.
    + destruct (Rlt_dec 0 y); [ lra | ].
      destruct (Rlt_dec y 0); lra.
Qed.

Lemma R_atan2_upper (y x : R) : 0 <= y -> 0 <= R_atan2 y x <= PI.
Proof.
  intros Hy. pose proof PI_RGT_0 as Hpi.
  split; [ | apply R_atan2_range ].
  unfold R_atan2.
  destruct (Rlt_dec 0 x) as [Hx | Hx].
  - assert (0 <= y / x).
    { unfold Rdiv. assert (0 < / x) by now apply Rinv_0_lt_compat. nra. }
    destruct H as [H | H].
    + left. rewrite <- atan_0. now apply atan_increasing.
    + rewrite <- H, atan_0. lra.
  - destruct (Rlt_dec x 0) as [Hx' | Hx'].
    + destruct (Rle_dec 0 y); [ | lra ].
      pose proof (atan_bound (y / x)). lra.
    + destruct (Rlt_dec 0 y); [ lra | ].
      destruct (Rlt_dec y 0); lra.
Qed.

(** On an angle between -pi and pi the first loop of [Phi_0_2pi] does not
    run and the second runs at most once. *)
Lemma Phi_sub_atan2 (n : nat) (x : R) : x <= PI -> Phi_sub n x = x.
Proof.
  intros Hx. pose proof PI_RGT_0. destruct n; [ reflexivity | ].
  cbn. unfold R_le. destruct (Rle_dec (2 * PI) x); [ lra | reflexivity ].
Qed.

Lemma Phi_add_atan2 (n : nat) (x : R) :
  - PI < x -> Phi_add (S n) x = if Rlt_dec x 0 then x + 2 * PI else x.
Proof.
  intros Hx. pose proof PI_RGT_0. cbn. unfold R_lt.
  destruct (Rlt_dec x 0); [ | reflexivity ].
  destruct n; [ reflexivity | ].
  cbn. unfold R_lt. destruct (Rlt_dec (x + 2 * PI) 0); [ lra | reflexivity ].
Qed.

(** Unrolling the loops further changes nothing, and both loop conditions
    are false at the value returned: the loops have exited. *)
Lemma Phi_0_2pi_atan2_exits (n : nat) (x : R) :
  - PI < x <= PI ->
  Phi_0_2pi_unrolled (S n) x = Phi_0_2pi x /\
  R_lt (Phi_0_2pi x) 0 = false /\
  R_le (2 * PI) (Phi_sub 2 x) = false.
Proof.
  intros [Hlo Hhi]. pose proof PI_RGT_0.
  unfold Phi_0_2pi, Phi_0_2pi_unrolled. cbn [d_isnan R_double].
  rewrite !Phi_sub_atan2, !Phi_add_atan2 by assumption.
  split; [ reflexivity | ].
  unfold R_lt, R_le.
  destruct (Rlt_dec x 0);
    repeat match goal with
           | |- context [Rlt_dec ?a ?b] => destruct (Rlt_dec a b)
           | |- context [Rle_dec ?a ?b] => destruct (Rle_dec a b)
           end; try lra; auto.
Qed.

Lemma Phi_0_2pi_range (x : R) : - PI < x <= PI -> 0 <= Phi_0_2pi x < 2 * PI.
Proof.
  intros [Hlo Hhi]. pose proof PI_RGT_0.
  unfold Phi_0_2pi, Phi_0_2pi_unrolled. cbn [d_isnan R_double].
  rewrite Phi_sub_atan2, Phi_add_atan2 by assumption.
  destruct (Rlt_dec x 0); lra.
Qed.

(** The members [ComputeDerivedQuantities] assigns, on the reals. *)
Lemma CDQ_pt (this : ParticleMC R) :
  pt (ComputeDerivedQuantities this) =
  R_sqrt.sqrt (px this * px this + py this * py this).
Proof. cbn. now rewrite !R_pow_2. Qed.

Lemma CDQ_p (this : ParticleMC R) :
  p (ComputeDerivedQuantities this) =
  R_sqrt.sqrt (pt (ComputeDerivedQuantities this) * pt (ComputeDerivedQuantities this)
        + pz this * pz this).
Proof. cbn. now rewrite !R_pow_2. Qed.

Lemma CDQ_pt_nonneg (this : ParticleMC R) :
  0 <= pt (ComputeDerivedQuantities this).
Proof. rewrite CDQ_pt. apply sqrt_pos. Qed.

Lemma CDQ_p_bounds (this : ParticleMC R) :
  pt (ComputeDerivedQuantities this) <= p (ComputeDerivedQuantities this) /\
  Rabs (pz this) <= p (ComputeDerivedQuantities this).
Proof.
  rewrite CDQ_p. set (t := pt (ComputeDerivedQuantities this)).
  assert (Ht : 0 <= t) by apply CDQ_pt_nonneg.
  split.
  - rewrite <- (sqrt_square t) at 1 by assumption.
    apply sqrt_le_1_alt. nra.
  - rewrite <- sqrt_Rsqr_abs. apply sqrt_le_1_alt. unfold Rsqr. nra.
Qed.

Lemma CDQ_ranges (this : ParticleMC R) :
  kinematic_ranges (ComputeDerivedQuantities this).
Proof.
  unfold kinematic_ranges.
  split; [ apply CDQ_pt_nonneg | ].
  split; [ apply CDQ_p_bounds | ].
  split.
  - change (theta (ComputeDerivedQuantities this))
      with (R_atan2 (pt (ComputeDerivedQuantities this)) (pz this)).
    apply R_atan2_upper, CDQ_pt_nonneg.
  - change (phi (ComputeDerivedQuantities this))
      with (Phi_0_2pi (R_atan2 (py this) (px this))).
    apply Phi_0_2pi_range, R_atan2_range.
Qed.

End ExactLemmas.

Section ExactRapidity.
Import Exact.
Local Open Scope R_scope.

(** The condition of the [if] in [ComputeDerivedQuantities], as computed. *)
Lemma CDQ_dummy_iff (this : ParticleMC R) :
  let p' := p (ComputeDerivedQuantities this) in
  R_le (E this - pz this) 0 || R_eq (p' - pz this) 0 ||
  R_eq (p' + pz this) 0 || R_le (E this + pz this) 0 = true
  <-> dummy_case this.
Proof.
  unfold dummy_case. cbv zeta.
  rewrite !orb_true_iff, !R_le_true, !R_eq_true. tauto.
Qed.

Lemma CDQ_rapidity_eta (this : ParticleMC R) :
  let q := ComputeDerivedQuantities this in
  let dummy := R_le (E this - pz this) 0 || R_eq (p q - pz this) 0 ||
               R_eq (p q + pz this) 0 || R_le (E this + pz this) 0 in
  rapidity q =
    (if dummy then -19
     else / 2 * ln ((E this + pz this) / (E this - pz this))) /\
  eta q =
    (if dummy then -19
     else / 2 * ln ((p q + pz this) / (p q - pz this))).
Proof. split; reflexivity. Qed.

(** C1, as far as it holds.  In any arithmetic, binary64 included,
    [ComputeDerivedQuantities] gives rapidity and pseudorapidity the value
    -19 when E-pz <= 0, p-pz = 0, p+pz = 0 or E+pz <= 0, and otherwise
    rapidity = 1/2 log((E+pz)/(E-pz)) and eta = 1/2 log((p+pz)/(p-pz)).  In
    exact real arithmetic both logarithms are then taken of a quotient that is
    defined and strictly positive. *)
Theorem CDQ_rapidity_eta_exact :
  (forall (D : Type) (ops : DoubleOps D) (this : ParticleMC D),
     let q := ComputeDerivedQuantities this in
     let dummy :=
       d_le (d_sub (E this) (pz this)) (d_lit 0)
       || d_eq (d_sub (p q) (pz this)) (d_lit 0)
       || d_eq (d_add (p q) (pz this)) (d_lit 0)
       || d_le (d_add (E this) (pz this)) (d_lit 0) in
     (dummy = true -> rapidity q = d_lit (-19) /\ eta q = d_lit (-19)) /\
     (dummy = false ->
      rapidity q =
        d_mul d_half
          (d_log (d_div (d_add (E this) (pz this))
                        (d_sub (E this) (pz this)))) /\
      eta q =
        d_mul d_half
          (d_log (d_div (d_add (p q) (pz this))
                        (d_sub (p q) (pz this)))))) /\
  (forall this : ParticleMC R,
     let q := ComputeDerivedQuantities this in
     (dummy_case this -> rapidity q = -19 /\ eta q = -19) /\
     (~ dummy_case this ->
      rapidity q = / 2 * ln ((E this + pz this) / (E this - pz this)) /\
      eta q = / 2 * ln ((p q + pz this) / (p q - pz this)) /\
      E this - pz this <> 0 /\ p q - pz this <> 0 /\
      0 < (E this + pz this) / (E this - pz this) /\
      0 < (p q + pz this) / (p q - pz this))).
Proof.
  split; [ intros D ops this; apply CDQ_branches | ].
  intros this q.
  destruct (CDQ_rapidity_eta this) as [Hr He]. cbv zeta in Hr, He.
  pose proof (CDQ_dummy_iff this) as Hd. cbv zeta in Hd.
  fold q in Hr, He, Hd.
  destruct (R_le (E this - pz this) 0 || R_eq (p q - pz this) 0 ||
            R_eq (p q + pz this) 0 || R_le (E this + pz this) 0) eqn:Hc.
  - split; [ intros _; now split | ].
    intros N. elim N. now apply Hd.
  - split; [ intros C; apply Hd in C; discriminate | ].
    intros N. split; [ exact Hr | ]. split; [ exact He | ].
    unfold dummy_case in N. cbv zeta in N. fold q in N.
    destruct (CDQ_p_bounds this) as [_ Hp]. fold q in Hp.
    assert (Hlo : - p q <= pz this <= p q).
    { unfold Rabs in Hp. destruct (Rcase_abs (pz this)); lra. }
    assert (H1 : 0 < E this - pz this) by lra.
    assert (H2 : 0 < E this + pz this) by lra.
    assert (H3 : 0 < p q - pz this) by lra.
    assert (H4 : 0 < p q + pz this) by lra.
    repeat split; try lra; now apply Rdiv_lt_0_compat.
Qed.

End ExactRapidity.

Section ExactExamples.
Import Exact.
Local Open Scope R_scope.

(** Both cases occur.  The beam particle of the example event moves along
    -z with E = |pz|: E + pz = 0 and its rapidity is the dummy value. *)
Lemma example_beam_dummy :
  dummy_case (example_beam (D := R)) /\
  rapidity (example_beam (D := R)) = -19 /\ eta (example_beam (D := R)) = -19.
Proof.
  assert (Hd : dummy_case (example_beam (D := R))).
  { unfold dummy_case. cbv zeta. right. left. cbn. lra. }
  split; [ exact Hd | ].
  apply (CDQ_dummy_iff (example_beam (D := R))) in Hd. cbv zeta in Hd.
  destruct (CDQ_rapidity_eta (example_beam (D := R))) as [Hr He].
  cbv zeta in Hr, He.
  change (ComputeDerivedQuantities (example_beam (D := R)))
    with (example_beam (D := R)) in Hr, He, Hd.
  rewrite Hr, He, Hd. now split.
Qed.

Lemma example_child_p : p (example_child (D := R)) = 5.
Proof.
  change (example_child (D := R))
    with (ComputeDerivedQuantities (example_child (D := R))).
  rewrite CDQ_p, CDQ_pt. cbn [px py pz example_child example_particle
    Set4Vector ComputeDerivedQuantities Px Py Pz d_lit R_double].
  rewrite sqrt_sqrt by nra.
  replace (3 * 3 + 0 * 0 + -4 * -4) with (5 * 5) by ring.
  apply sqrt_square. lra.
Qed.

(** The child particle, (px, py, pz, E) = (3, 0, -4, 5), has p = 5: none of
    the four tests holds and its rapidity and pseudorapidity are
    1/2 ln(1/9). *)
Lemma example_child_logarithms :
  ~ dummy_case (example_child (D := R)) /\
  rapidity (example_child (D := R)) = / 2 * ln (1 / 9) /\
  eta (example_child (D := R)) = / 2 * ln (1 / 9).
Proof.
  assert (Hd : ~ dummy_case (example_child (D := R))).
  { unfold dummy_case. cbv zeta.
    change (ComputeDerivedQuantities (example_child (D := R)))
      with (example_child (D := R)).
    rewrite example_child_p. cbn. lra. }
  split; [ exact Hd | ].
  destruct (CDQ_rapidity_eta (example_child (D := R))) as [Hr He].
  cbv zeta in Hr, He.
  pose proof (CDQ_dummy_iff (example_child (D := R))) as Hi. cbv zeta in Hi.
  change (ComputeDerivedQuantities (example_child (D := R)))
    with (example_child (D := R)) in Hr, He, Hi.
  destruct (R_le _ 0 || R_eq _ 0 || R_eq _ 0 || R_le _ 0);
    [ elim Hd; now apply Hi | ].
  rewrite Hr, He, example_child_p. cbn [E pz example_child example_particle
    Set4Vector ComputeDerivedQuantities Pz Energy d_lit R_double].
  split; f_equal; f_equal; lra.
Qed.

End ExactExamples.

Section Binary64Rapidity.
Local Open Scope float_scope.

(** C1 as stated fails in double arithmetic: after [Set4Vector] with the
    finite four-momentum (2^700, 0, 0, 2^700) the square of px has
    overflowed, pt and p are +infinity, none of the four tests of the dummy
    case holds, the rapidity is 0 and the pseudorapidity is
    1/2 log(inf/inf), a NaN. *)
Lemma CDQ_binary64_overflow_nan :
  let v := overflow_vector in
  let q := Set4Vector v ParticleMC_init in
  (is_finite (Px v) && is_finite (Py v) && is_finite (Pz v)
   && is_finite (Energy v) = true) /\
  Get4Vector q = v /\
  ((E q - pz q <=? 0) || (p q - pz q =? 0) ||
   (p q + pz q =? 0) || (E q + pz q <=? 0) = false) /\
  pt q = infinity /\ p q = infinity /\
  is_nan ((p q + pz q) / (p q - pz q)) = true /\
  rapidity q = 0 /\ is_nan (eta q) = true.
Proof. vm_compute. repeat split; reflexivity. Qed.

End Binary64Rapidity.

Section Binary64Examples.
Local Open Scope float_scope.

(** The same particle in binary64: pt = 3 and p = 5 exactly, rapidity and
    pseudorapidity within 0.0002 of 1/2 ln(1/9) = -1.0986..., theta within
    0.0001 of 2.49809... and phi = 0. *)
Lemma example_child_binary64 :
  let q := example_child (D := float) in
  pt q = 3 /\ p q = 5 /\ phi q = 0 /\
  ((-0x1.1948p+0 <? rapidity q) && (rapidity q <? -0x1.1938p+0)
   && (-0x1.1948p+0 <? eta q) && (eta q <? -0x1.1938p+0)
   && (0x1.3fc0p+1 <? theta q) && (theta q <? 0x1.3fc4p+1) = true).
Proof. vm_compute. repeat split; reflexivity. Qed.

End Binary64Examples.

(** ** The constructor and its input stream *)

Section Constructor.

Context {D : Type} {ops : DoubleOps D} {num_get : NumGet D}.

Lemma skipws_nonempty (s : string) :
  is_empty (skipws s) = false -> is_empty s = false.
Proof. destruct s; [ exact (fun H => H) | reflexivity ]. Qed.

(** An extraction that leaves [failbit] clear found the stream good and read
    a number from it. *)
Lemma extract_ok {A : Type} (get : string -> option (A * string))
    (x : A) (ss ss' : sstream) (v : A) :
  extract get x ss = (ss', v) -> failbit ss' = false ->
  failbit ss = false /\ eofbit ss = false /\
  reads get (buf ss) v (buf ss') /\ eofbit ss' = is_empty (buf ss').
Proof.
  unfold extract, reads.
  destruct (failbit ss); [ cbn; intros [= <- <-]; discriminate | ].
  destruct (eofbit ss); [ cbn; intros [= <- <-]; discriminate | ].
  cbn [orb].
  destruct (is_empty (skipws (buf ss))) eqn:He;
    [ intros [= <- <-]; discriminate | ].
  destruct (get (skipws (buf ss))) as [[v' rest] | ] eqn:Hg;
    [ | intros [= <- <-]; discriminate ].
  intros [= <- <-] _. cbn. auto.
Qed.

(** Conversely, on a good stream that starts with a number the extraction
    reads it. *)
Lemma extract_reads {A : Type} (get : string -> option (A * string))
    (x : A) (ss : sstream) (v : A) (rest : string) :
  failbit ss = false -> eofbit ss = false -> reads get (buf ss) v rest ->
  extract get x ss = (mk_sstream rest false (is_empty rest), v).
Proof.
  unfold extract, reads. intros -> -> [-> ->]. reflexivity.
Qed.

(** Once [failbit] is set it stays set, and the target keeps its value. *)
Lemma extract_failed {A : Type} (get : string -> option (A * string))
    (x : A) (ss : sstream) :
  failbit ss = true ->
  extract get x ss = (mk_sstream (buf ss) true (eofbit ss), x).
Proof. unfold extract. now intros ->. Qed.

Ltac step_back H :=
  match type of H with
  | extract _ _ ?s = _ =>
      let Hf := fresh "Hf" in
      let He := fresh "He" in
      let Hr := fresh "Hr" in
      let Hb := fresh "Hb" in
      apply extract_ok in H; [ destruct H as (Hf & He & Hr & Hb) | assumption ]
  end.

(** What the constructor returns for a line that is not empty. *)
Lemma ParticleMC_new_inr (line : string) (q : ParticleMC D) :
  is_empty line = false ->
  ParticleMC_new line = inr q ->
  exists f, parses line f /\ q = ComputeDerivedQuantities (particle_of_fields f).
Proof.
  intros Hne. unfold ParticleMC_new. rewrite Hne. cbn [negb].
  destruct (extract get_Int_t _ _) as [s1 v1] eqn:E1.
  destruct (extract get_Int_t _ s1) as [s2 v2] eqn:E2.
  destruct (extract get_Int_t _ s2) as [s3 v3] eqn:E3.
  destruct (extract get_Int_t _ s3) as [s4 v4] eqn:E4.
  destruct (extract get_Int_t _ s4) as [s5 v5] eqn:E5.
  destruct (extract get_Int_t _ s5) as [s6 v6] eqn:E6.
  destruct (extract get_Double_t _ s6) as [s7 v7] eqn:E7.
  destruct (extract get_Double_t _ s7) as [s8 v8] eqn:E8.
  destruct (extract get_Double_t _ s8) as [s9 v9] eqn:E9.
  destruct (extract get_Double_t _ s9) as [s10 v10] eqn:E10.
  destruct (extract get_Double_t _ s10) as [s11 v11] eqn:E11.
  destruct (extract get_Double_t _ s11) as [s12 v12] eqn:E12.
  destruct (extract get_Double_t _ s12) as [s13 v13] eqn:E13.
  destruct (extract get_Double_t _ s13) as [s14 v14] eqn:E14.
  destruct (failbit s14) eqn:F14; [ discriminate | ].
  destruct (eofbit s14) eqn:Eof; [ | discriminate ].
  cbn [orb negb]. intros [= <-].
  step_back E14. step_back E13. step_back E12. step_back E11.
  step_back E10. step_back E9. step_back E8. step_back E7.
  step_back E6. step_back E5. step_back E4. step_back E3.
  step_back E2. step_back E1.
  assert (Hend : buf s14 = EmptyString).
  { destruct (buf s14); [ reflexivity | ]. cbn in *. congruence. }
  rewrite Hend in *.
  exists (mkFields v1 v2 v3 v4 v5 v6 v7 v8 v9 v10 v11 v12 v13 v14).
  split; [ | reflexivity ].
  exists (buf s1), (buf s2), (buf s3), (buf s4), (buf s5), (buf s6), (buf s7),
    (buf s8), (buf s9), (buf s10), (buf s11), (buf s12), (buf s13).
  cbn. repeat split; try apply Hr; try apply Hr0; try apply Hr1;
    try apply Hr2; try apply Hr3; try apply Hr4; try apply Hr5;
    try apply Hr6; try apply Hr7; try apply Hr8; try apply Hr9;
    try apply Hr10; try apply Hr11; try apply Hr12.
Qed.

Lemma reads_nonempty {A : Type} (get : string -> option (A * string))
    (s : string) (v : A) (rest : string) :
  reads get s v rest -> is_empty s = false.
Proof. intros [H _]. now apply skipws_nonempty. Qed.

Lemma ParticleMC_new_parses (line : string) (f : Fields D) :
  parses line f ->
  ParticleMC_new line = inr (ComputeDerivedQuantities (particle_of_fields f)).
Proof.
  intros (r1 & r2 & r3 & r4 & r5 & r6 & r7 & r8 & r9 & r10 & r11 & r12 & r13
          & H1 & H2 & H3 & H4 & H5 & H6 & H7 & H8 & H9 & H10 & H11 & H12
          & H13 & H14).
  unfold ParticleMC_new.
  rewrite (reads_nonempty H1). cbn [negb].
  rewrite (extract_reads _ (mk_sstream line false false) eq_refl eq_refl H1).
  rewrite (reads_nonempty H2).
  rewrite (extract_reads _ (mk_sstream r1 false false) eq_refl eq_refl H2).
  rewrite (reads_nonempty H3).
  rewrite (extract_reads _ (mk_sstream r2 false false) eq_refl eq_refl H3).
  rewrite (reads_nonempty H4).
  rewrite (extract_reads _ (mk_sstream r3 false false) eq_refl eq_refl H4).
  rewrite (reads_nonempty H5).
  rewrite (extract_reads _ (mk_sstream r4 false false) eq_refl eq_refl H5).
  rewrite (reads_nonempty H6).
  rewrite (extract_reads _ (mk_sstream r5 false false) eq_refl eq_refl H6).
  rewrite (reads_nonempty H7).
  rewrite (extract_reads _ (mk_sstream r6 false false) eq_refl eq_refl H7).
  rewrite (reads_nonempty H8).
  rewrite (extract_reads _ (mk_sstream r7 false false) eq_refl eq_refl H8).
  rewrite (reads_nonempty H9).
  rewrite (extract_reads _ (mk_sstream r8 false false) eq_refl eq_refl H9).
  rewrite (reads_nonempty H10).
  rewrite (extract_reads _ (mk_sstream r9 false false) eq_refl eq_refl H10).
  rewrite (reads_nonempty H11).
  rewrite (extract_reads _ (mk_sstream r10 false false) eq_refl eq_refl H11).
  rewrite (reads_nonempty H12).
  rewrite (extract_reads _ (mk_sstream r11 false false) eq_refl eq_refl H12).
  rewrite (reads_nonempty H13).
  rewrite (extract_reads _ (mk_sstream r12 false false) eq_refl eq_refl H13).
  rewrite (reads_nonempty H14).
  rewrite (extract_reads _ (mk_sstream r13 false false) eq_refl eq_refl H14).
  reflexivity.
Qed.

(** The only exception the constructor throws. *)
Lemma ParticleMC_new_inl (line : string) (e : exception) :
  ParticleMC_new line = inl e ->
  e = runtime_error ("Bad particle input: " ++ line).
Proof.
  unfold ParticleMC_new.
  destruct (negb (is_empty line)); [ | discriminate ].
  repeat match goal with
         | |- context [let '(_, _) := ?c in _] => destruct c
         end.
  destruct (_ || _); [ | discriminate ].
  now intros [= <-].
Qed.

(** C8: for a line that is not empty the constructor throws (a
    [runtime_error] naming the line) exactly when the line does not consist
    of the fourteen fields with nothing left over; when it throws no particle
    is produced, and when it returns the particle holds all fourteen fields
    and its derived quantities. *)
Theorem ParticleMC_new_fails_iff (line : string) :
  line <> EmptyString ->
  ((exists e, ParticleMC_new line = inl e) <->
   ~ (exists f, parses line f)) /\
  (forall e, ParticleMC_new line = inl e ->
     e = runtime_error ("Bad particle input: " ++ line) /\
     forall q, ParticleMC_new line <> inr q) /\
  (forall q, ParticleMC_new line = inr q ->
     exists f, parses line f /\
               q = ComputeDerivedQuantities (particle_of_fields f)).
Proof.
  intros Hne.
  assert (Hemp : is_empty line = false) by (destruct line; [ now elim Hne | reflexivity ]).
  split; [ split | split ].
  - intros [e He] [f Hf]. rewrite (ParticleMC_new_parses Hf) in He.
    discriminate.
  - intros Hno. destruct (ParticleMC_new line) as [e | q] eqn:Hn.
    + now exists e.
    + elim Hno. destruct (ParticleMC_new_inr _ Hemp Hn) as (f & Hf & _).
      now exists f.
  - intros e He. split; [ now apply ParticleMC_new_inl | ].
    intros q Hq. congruence.
  - intros q Hq. now apply ParticleMC_new_inr.
Qed.

End Constructor.

(** The example record parses into its fourteen fields. *)
Lemma example_line_parses : parses (D := R) example_line example_fields.
Proof.
  unfold parses, reads.
  exists " 1 11 1 0 0 3 0 -4 5 0 0 0 0"%string, " 11 1 0 0 3 0 -4 5 0 0 0 0"%string,
    " 1 0 0 3 0 -4 5 0 0 0 0"%string, " 0 0 3 0 -4 5 0 0 0 0"%string,
    " 0 3 0 -4 5 0 0 0 0"%string, " 3 0 -4 5 0 0 0 0"%string,
    " 0 -4 5 0 0 0 0"%string, " -4 5 0 0 0 0"%string, " 5 0 0 0 0"%string,
    " 0 0 0 0"%string, " 0 0 0"%string, " 0 0"%string, " 0"%string.
  repeat split.
Qed.

(** Trailing white space leaves [eofbit] clear: the constructor throws. *)
Lemma trailing_space_rejected :
  ParticleMC_new (D := R) (example_line ++ " ") =
  inl (runtime_error ("Bad particle input: " ++ example_line ++ " ")).
Proof. vm_compute. reflexivity. Qed.

(** A record with too few fields is rejected. *)
Lemma short_line_rejected :
  ParticleMC_new (D := R) "2 1 11" =
  inl (runtime_error "Bad particle input: 2 1 11").
Proof. vm_compute. reflexivity. Qed.

(** C8 at the example record, which is not empty. *)
Lemma ParticleMC_new_fails_iff_witness :
  example_line <> EmptyString /\
  (((exists e, ParticleMC_new (D := R) example_line = inl e) <->
    ~ (exists f : Fields R, parses example_line f)) /\
   (forall e, ParticleMC_new (D := R) example_line = inl e ->
      e = runtime_error ("Bad particle input: " ++ example_line) /\
      forall q : ParticleMC R, ParticleMC_new example_line <> inr q) /\
   (forall q, ParticleMC_new (D := R) example_line = inr q ->
      exists f, parses example_line f /\
                q = ComputeDerivedQuantities (particle_of_fields f))).
Proof.
  assert (H : example_line <> EmptyString) by discriminate.
  exact (conj H (ParticleMC_new_fails_iff (D := R) H)).
Defined.

(** ** The empty line *)

Section EmptyLine.

Context {D : Type} {ops : DoubleOps D} {num_get : NumGet D}.

(** C10, amended: from the empty string the constructor returns, without
    throwing and without computing derived quantities, the particle of its
    member initialisers: index, status, origin and daughter indices -1,
    species code and parent species code the minimum [Int_t], and every
    [Double_t] member 0. *)
Theorem ParticleMC_new_empty :
  ParticleMC_new EmptyString = inr ParticleMC_init /\
  (I ParticleMC_init = (-1)%Z /\ KS ParticleMC_init = (-1)%Z /\
   id ParticleMC_init = Int_t_min /\ orig ParticleMC_init = (-1)%Z /\
   daughter ParticleMC_init = (-1)%Z /\ ldaughter ParticleMC_init = (-1)%Z /\
   parentId ParticleMC_init = Int_t_min) /\
  (px ParticleMC_init = d_lit 0 /\ py ParticleMC_init = d_lit 0 /\
   pz ParticleMC_init = d_lit 0 /\ E ParticleMC_init = d_lit 0 /\
   m ParticleMC_init = d_lit 0 /\ xv ParticleMC_init = d_lit 0 /\
   yv ParticleMC_init = d_lit 0 /\ zv ParticleMC_init = d_lit 0) /\
  (pt ParticleMC_init = d_lit 0 /\ p ParticleMC_init = d_lit 0 /\
   theta ParticleMC_init = d_lit 0 /\ phi ParticleMC_init = d_lit 0 /\
   rapidity ParticleMC_init = d_lit 0 /\ eta ParticleMC_init = d_lit 0 /\
   z ParticleMC_init = d_lit 0 /\ xFeynman ParticleMC_init = d_lit 0 /\
   thetaGamma ParticleMC_init = d_lit 0 /\
   ptVsGamma ParticleMC_init = d_lit 0 /\ phiPrf ParticleMC_init = d_lit 0).
Proof. repeat split. Qed.

End EmptyLine.

(** Had the derived quantities been computed, rapidity and pseudorapidity
    would hold the dummy value -19 and not 0. *)
Lemma ParticleMC_init_not_derived :
  rapidity (ComputeDerivedQuantities (ParticleMC_init (D := R))) = (-19)%R /\
  rapidity (ParticleMC_init (D := R)) = 0%R.
Proof.
  split; [ | reflexivity ].
  pose proof (CDQ_rapidity_eta (ParticleMC_init (D := R))) as [Hr _].
  cbv zeta in Hr. rewrite Hr.
  replace (Exact.R_le _ 0) with true; [ reflexivity | ].
  symmetry. apply R_le_true. cbn. lra.
Qed.

(** C10 as stated fails: the parent species code, one of the derived members,
    is initialised to the minimum [Int_t] and not to 0. *)
Lemma ParticleMC_new_empty_parentId :
  exists q : ParticleMC R,
    ParticleMC_new EmptyString = inr q /\
    parentId q = (-2147483648)%Z /\ parentId q <> 0%Z.
Proof.
  exists ParticleMC_init. repeat split. discriminate.
Qed.

(** ** [Set4Vector] and [Get4Vector] *)

Section FourVector.

Context {D : Type} {ops : DoubleOps D}.

Lemma Get4Vector_CDQ (this : ParticleMC D) :
  Get4Vector (ComputeDerivedQuantities this) = Get4Vector this.
Proof. reflexivity. Qed.

Lemma Get4Vector_Set4Vector (v : TLorentzVector D) (this : ParticleMC D) :
  Get4Vector (Set4Vector v this) = v.
Proof. destruct v; reflexivity. Qed.

(** C6: after [Set4Vector(v)] the four-momentum read back is [v], component
    for component, and pt, p, theta, phi, rapidity and eta are those
    [ComputeDerivedQuantities] computes from [v]'s components, whatever else
    the particle holds. *)
Theorem Set4Vector_roundtrip (v : TLorentzVector D) (this : ParticleMC D) :
  Get4Vector (Set4Vector v this) = v /\
  (px (Set4Vector v this) = Px v /\ py (Set4Vector v this) = Py v /\
   pz (Set4Vector v this) = Pz v /\ E (Set4Vector v this) = Energy v) /\
  (forall other : ParticleMC D,
     Get4Vector other = v ->
     pt (Set4Vector v this) = pt (ComputeDerivedQuantities other) /\
     p (Set4Vector v this) = p (ComputeDerivedQuantities other) /\
     theta (Set4Vector v this) = theta (ComputeDerivedQuantities other) /\
     phi (Set4Vector v this) = phi (ComputeDerivedQuantities other) /\
     rapidity (Set4Vector v this) = rapidity (ComputeDerivedQuantities other) /\
     eta (Set4Vector v this) = eta (ComputeDerivedQuantities other)).
Proof.
  split; [ apply Get4Vector_Set4Vector | ].
  split; [ repeat split | ].
  intros other <-. repeat split.
Qed.

(** [Set4Vector] touches no member other than the four-momentum and the six
    quantities derived from it. *)
Lemma Set4Vector_frame (v : TLorentzVector D) (this : ParticleMC D) :
  I (Set4Vector v this) = I this /\ KS (Set4Vector v this) = KS this /\
  id (Set4Vector v this) = id this /\ orig (Set4Vector v this) = orig this /\
  daughter (Set4Vector v this) = daughter this /\
  ldaughter (Set4Vector v this) = ldaughter this /\
  z (Set4Vector v this) = z this /\
  parentId (Set4Vector v this) = parentId this.
Proof. repeat split. Qed.

End FourVector.

(** ** Parent and child navigation *)

Section Navigation.

Context {D : Type} {ops : DoubleOps D}.

Lemma UInt_t_small (x : Z) : (0 <= x < 2 ^ 32)%Z -> UInt_t x = x.
Proof. intros H. unfold UInt_t. now apply Z.mod_small. Qed.

Lemma GetTrack_in_range (ev : EventMC D) (i : Z) :
  (0 <= i < 2 ^ 32)%Z ->
  GetTrack ev i = nth_error (particles ev) (Z.to_nat i).
Proof. intros H. unfold GetTrack. now rewrite UInt_t_small. Qed.

Lemma GetTrack_Some (ev : EventMC D) (i : Z) :
  (0 <= i < 2 ^ 32)%Z -> (i < GetNTracks ev)%Z ->
  exists q, GetTrack ev i = Some q.
Proof.
  intros Hi Hn. rewrite GetTrack_in_range by assumption.
  destruct (nth_error (particles ev) (Z.to_nat i)) as [q | ] eqn:Hq.
  - now exists q.
  - apply nth_error_None in Hq. unfold GetNTracks in Hn. lia.
Qed.

Lemma GetTrack_None (ev : EventMC D) (i : Z) :
  (0 <= i < 2 ^ 32)%Z -> (GetNTracks ev <= i)%Z -> GetTrack ev i = None.
Proof.
  intros Hi Hn. rewrite GetTrack_in_range by assumption.
  apply nth_error_None. unfold GetNTracks in Hn. lia.
Qed.

(** [GetChild] on an event, once its guards are evaluated. *)
Lemma GetChild_unfold (ev : EventMC D) (this : ParticleMC D) (u : Z) :
  (0 <= u < 2 ^ 16)%Z -> (- 2 ^ 31 <= daughter this < 2 ^ 31)%Z ->
  GetChild (Some ev) this u =
  if ((1 <=? daughter this) && (u <? GetNChildren this)
      && (daughter this + u - 1 <? GetNTracks ev))%Z
  then (nth_error (particles ev) (Z.to_nat (daughter this + u - 1)),
        [(daughter this + u - 1)%Z])
  else (None, []).
Proof.
  intros Hu Hd. unfold GetChild.
  destruct (Z.ltb_spec (daughter this) 1) as [H1 | H1];
    destruct (Z.leb_spec 1 (daughter this)) as [H1' | H1']; try lia;
    cbn [orb andb]; [ reflexivity | ].
  destruct (Z.leb_spec (GetNChildren this) u) as [H2 | H2];
    destruct (Z.ltb_spec u (GetNChildren this)) as [H2' | H2']; try lia;
    cbn [orb andb]; [ reflexivity | ].
  assert (Hs : UInt_t (daughter this + u) = (daughter this + u)%Z)
    by (apply UInt_t_small; lia).
  rewrite Hs.
  assert (Hi : UInt_t (daughter this + u - 1) = (daughter this + u - 1)%Z)
    by (apply UInt_t_small; lia).
  rewrite Hi.
  destruct (Z.ltb_spec (daughter this + u - 1) (GetNTracks ev));
    [ | reflexivity ].
  unfold GetTrack_logged. rewrite GetTrack_in_range by lia.
  now rewrite Hi.
Qed.

(** C7: [GetChild(u)] returns the particle at 0-based index
    first-daughter + u - 1 exactly when the first-daughter index is at least
    1, [u] is below the number of children and that index is within the
    event's particle list; in every other case it returns no particle. *)
Theorem GetChild_spec (event : option (EventMC D)) (this : ParticleMC D)
    (u : Z) :
  (0 <= u < 2 ^ 16)%Z -> (- 2 ^ 31 <= daughter this < 2 ^ 31)%Z ->
  (forall q, fst (GetChild event this u) = Some q <->
     child_index_valid event this u /\
     exists ev, event = Some ev /\
       nth_error (particles ev) (Z.to_nat (daughter this + u - 1)) = Some q) /\
  (child_index_valid event this u ->
     exists q, fst (GetChild event this u) = Some q) /\
  (~ child_index_valid event this u -> fst (GetChild event this u) = None).
Proof.
  intros Hu Hd. unfold child_index_valid.
  destruct event as [ev | ].
  2:{ cbn. split; [ | split ].
      - intros q. split; [ discriminate | ]. now intros [(ev & [=] & _) _].
      - now intros (ev & [=] & _).
      - reflexivity. }
  rewrite GetChild_unfold by assumption.
  destruct (Z.leb_spec 1 (daughter this)) as [H1 | H1]; cbn [andb].
  2:{ split; [ | split ]; cbn.
      - intros q. split; [ discriminate | ].
        intros [(ev' & _ & ? & _) _]. lia.
      - intros (ev' & _ & ? & _). lia.
      - reflexivity. }
  destruct (Z.ltb_spec u (GetNChildren this)) as [H2 | H2]; cbn [andb].
  2:{ split; [ | split ]; cbn.
      - intros q. split; [ discriminate | ].
        intros [(ev' & _ & _ & ? & _) _]. lia.
      - intros (ev' & _ & _ & ? & _). lia.
      - reflexivity. }
  destruct (Z.ltb_spec (daughter this + u - 1) (GetNTracks ev)) as [H3 | H3].
  - cbn [fst]. split; [ | split ].
    + intros q. split.
      * intros Hq. split; [ exists ev; repeat split; lia | now exists ev ].
      * now intros [_ (ev' & [= <-] & Hq)].
    + intros _.
      destruct (@GetTrack_Some ev (daughter this + u - 1)%Z) as [q Hq];
        [ lia | lia | ].
      rewrite GetTrack_in_range in Hq by lia. now exists q.
    + intros N. elim N. exists ev. repeat split; lia.
  - cbn [fst]. split; [ | split ].
    + intros q. split; [ discriminate | ].
      intros [(ev' & [= <-] & _ & _ & ?) _]. lia.
    + intros (ev' & [= <-] & _ & _ & ?). lia.
    + reflexivity.
Qed.

(** X3: every index [GetChild] looks up is within the particle list. *)
Lemma GetChild_lookups_in_bounds (ev : EventMC D) (this : ParticleMC D)
    (u i : Z) :
  (0 <= u < 2 ^ 16)%Z -> (- 2 ^ 31 <= daughter this < 2 ^ 31)%Z ->
  In i (snd (GetChild (Some ev) this u)) -> (0 <= i < GetNTracks ev)%Z.
Proof.
  intros Hu Hd. rewrite GetChild_unfold by assumption.
  destruct (Z.leb_spec 1 (daughter this)); cbn [andb]; [ | now cbn ].
  destruct (Z.ltb_spec u (GetNChildren this)); cbn [andb]; [ | now cbn ].
  destruct (Z.ltb_spec (daughter this + u - 1) (GetNTracks ev));
    [ | now cbn ].
  cbn. intros [<- | []]. lia.
Qed.

(** [GetParent] for an origin index from 1 to N: the particle at 0-based
    index origin - 1, found by a lookup within the list. *)
Lemma GetParent_in_range (ev : EventMC D) (this : ParticleMC D) :
  (1 <= orig this <= GetNTracks ev)%Z -> (GetNTracks ev < 2 ^ 32)%Z ->
  GetParent (Some ev) this =
  (nth_error (particles ev) (Z.to_nat (orig this - 1)), [(orig this - 1)%Z])
  /\ exists q, fst (GetParent (Some ev) this) = Some q.
Proof.
  intros Ho Hn. unfold GetParent, GetParentIndex.
  rewrite UInt_t_small by lia.
  destruct (Z.leb_spec (orig this) (GetNTracks ev)); [ | lia ].
  unfold GetTrack_logged. rewrite GetTrack_in_range, UInt_t_small by lia.
  split; [ reflexivity | ]. cbn [fst].
  destruct (@GetTrack_Some ev (orig this - 1)%Z) as [q Hq]; [ lia | lia | ].
  rewrite GetTrack_in_range in Hq by lia. now exists q.
Qed.

(** [GetParent] for an origin index above N (and below 2^32): no particle,
    and no lookup. *)
Lemma GetParent_above (ev : EventMC D) (this : ParticleMC D) :
  (GetNTracks ev < orig this < 2 ^ 32)%Z ->
  GetParent (Some ev) this = (None, []).
Proof.
  intros Ho. unfold GetParent, GetParentIndex.
  rewrite UInt_t_small by (unfold GetNTracks in *; lia).
  destruct (Z.leb_spec (orig this) (GetNTracks ev)); [ lia | reflexivity ].
Qed.

(** [GetParent] for the origin index 0, "no parent": the guard
    [GetNTracks() >= GetParentIndex()] holds, and [GetTrack] is called with
    0 - 1, as [UInt_t] 4294967295, an index outside the particle list. *)
Lemma GetParent_origin_zero (ev : EventMC D) (this : ParticleMC D) :
  orig this = 0%Z -> (GetNTracks ev < 2 ^ 32)%Z ->
  GetParent (Some ev) this = (None, [4294967295%Z]) /\
  ~ (0 <= 4294967295 < GetNTracks ev)%Z.
Proof.
  intros Ho Hn. unfold GetParent, GetParentIndex. rewrite Ho.
  change (UInt_t 0) with 0%Z.
  destruct (Z.leb_spec 0 (GetNTracks ev));
    [ | unfold GetNTracks in *; lia ].
  unfold GetTrack_logged. change (UInt_t (0 - 1)) with 4294967295%Z.
  split; [ | lia ].
  f_equal. unfold GetTrack. change (UInt_t (0 - 1)) with 4294967295%Z.
  apply nth_error_None. unfold GetNTracks in Hn. lia.
Qed.

End Navigation.

(** C7 at the spec's example: [GetChild(0)] on the first particle,
    whose daughters are 2 to 2, is the second particle. *)
Lemma GetChild_spec_witness :
  ((0 <= 0 < 2 ^ 16)%Z /\
   (- 2 ^ 31 <= daughter (example_beam (D := R)) < 2 ^ 31)%Z) /\
  fst (GetChild (Some example_event) (example_beam (D := R)) 0)
  = Some example_child.
Proof.
  assert (Hu : (0 <= 0 < 2 ^ 16)%Z) by lia.
  assert (Hd : (- 2 ^ 31 <= daughter (example_beam (D := R)) < 2 ^ 31)%Z)
    by (cbn; lia).
  split; [ now split | ].
  apply (GetChild_spec (Some example_event) (example_beam (D := R)) Hu Hd).
  split.
  - exists example_event. split; [ reflexivity | ].
    cbn. lia.
  - exists example_event. split; reflexivity.
Defined.

(** The spec's example for [GetParent]: the parent of the second particle,
    whose origin index is 1, is the first particle. *)
Lemma GetParent_example :
  fst (GetParent (Some example_event) (example_child (D := R)))
  = Some example_beam.
Proof.
  assert (H : (1 <= orig (example_child (D := R))
               <= GetNTracks (example_event (D := R)))%Z) by (cbn; lia).
  destruct (GetParent_in_range (example_event (D := R)) _ H) as [-> _];
    [ cbn; lia | reflexivity ].
Qed.

(** C4 fails for the origin index 0: on the first particle of the example
    event, which has no parent, [GetParent] calls [GetTrack] with index
    4294967295, outside the three-particle list. *)
Theorem GetParent_origin_zero_out_of_bounds :
  orig (example_beam (D := R)) = 0%Z /\
  GetNTracks (example_event (D := R)) = 3%Z /\
  GetParent (Some example_event) (example_beam (D := R))
  = (None, [4294967295%Z]) /\
  ~ (0 <= 4294967295 < GetNTracks (example_event (D := R)))%Z.
Proof.
  split; [ reflexivity | ]. split; [ reflexivity | ].
  apply GetParent_origin_zero; [ reflexivity | cbn; lia ].
Qed.

(** ** Event-dependent quantities *)

Section EventDependent.

Context {D : Type} {ops : DoubleOps D} {root : RootOps D}.

Lemma GetTrack_wrapped (ev : EventMC D) (i : Z) :
  (UInt_t i <? GetNTracks ev)%Z = true -> exists q, GetTrack ev i = Some q.
Proof.
  intros H. apply Z.ltb_lt in H. unfold GetTrack.
  destruct (nth_error (particles ev) (Z.to_nat (UInt_t i))) as [q | ] eqn:Hq.
  - now exists q.
  - apply nth_error_None in Hq. unfold GetNTracks in H.
    assert (0 <= UInt_t i)%Z by (unfold UInt_t; apply Z.mod_pos_bound; lia).
    lia.
Qed.

(** When one of the three beam lookups fails the [try] block throws before
    it has assigned to any member. *)
Lemma CEDQ_try_missing (event : EventMC D) (this : ParticleMC D) :
  GetTrack event 1 = None \/ GetTrack event 2 = None \/
  GetTrack event 3 = None ->
  ComputeEventDependentQuantities_try event this = (this, inl missing_track).
Proof.
  intros H. unfold ComputeEventDependentQuantities_try, bind, GetTrack_deref.
  destruct (GetTrack event 1) as [h | ]; [ | reflexivity ].
  destruct (GetTrack event 2) as [l | ]; [ | reflexivity ].
  destruct (GetTrack event 3) as [b | ]; [ | reflexivity ].
  destruct H as [H | [H | H]]; discriminate.
Qed.

(** When the three beam tracks are there the [try] block runs to its end:
    the parent is only looked up at an index the guard has checked. *)
Lemma CEDQ_try_beams (event : EventMC D) (this h l b : ParticleMC D) :
  GetTrack event 1 = Some h -> GetTrack event 2 = Some l ->
  GetTrack event 3 = Some b ->
  exists this',
    ComputeEventDependentQuantities_try event this = (this', inr tt) /\
    z this' = d_div (Dot (Get4Vector h) (Get4Vector this))
                    (Dot (Get4Vector h) (Get4Vector b)) /\
    Get4Vector this' = Get4Vector this.
Proof.
  intros H1 H2 H3.
  unfold ComputeEventDependentQuantities_try, bind, GetTrack_deref.
  rewrite H1, H2, H3. cbn -[GetTrack computeBoost UInt_t].
  match goal with
  | |- context [if ?c then _ else _] => destruct c eqn:Hguard
  end.
  - destruct (GetTrack_wrapped _ _ Hguard) as [parent Hp].
    rewrite Hp. cbn -[computeBoost]. eexists. split; [ reflexivity | ].
    split; reflexivity.
  - cbn -[computeBoost]. eexists. split; [ reflexivity | ].
    split; reflexivity.
Qed.

(** C3: an exception is raised inside [ComputeEventDependentQuantities]
    exactly when one of the three beam-track lookups fails.  The call then
    catches it, writes one line to [std::cerr] and returns normally with the
    particle as it was, so every event-dependent member (z, xFeynman,
    thetaGamma, ptVsGamma, phiPrf, parentId) still at its default stays there;
    otherwise the block completes and nothing is written. *)
Theorem CEDQ_exception_contained (event : EventMC D) (this : ParticleMC D) :
  ((GetTrack event 1 = None \/ GetTrack event 2 = None \/
    GetTrack event 3 = None) /\
   (exists e, snd (ComputeEventDependentQuantities_try event this) = inl e /\
      ComputeEventDependentQuantities event this =
      (this,
       [("Exception in Particle::ComputeEventDependentQuantities: "
         ++ what e)%string])) /\
   (event_members_unset this ->
    event_members_unset (fst (ComputeEventDependentQuantities event this))))
  \/
  ((exists h l b, GetTrack event 1 = Some h /\ GetTrack event 2 = Some l /\
                  GetTrack event 3 = Some b) /\
   snd (ComputeEventDependentQuantities_try event this) = inr tt /\
   ComputeEventDependentQuantities event this =
   (fst (ComputeEventDependentQuantities_try event this), [])).
Proof.
  destruct (GetTrack event 1) as [h | ] eqn:H1;
    [ destruct (GetTrack event 2) as [l | ] eqn:H2;
      [ destruct (GetTrack event 3) as [b | ] eqn:H3 | ] | ].
  - right. split; [ now exists h, l, b | ].
    destruct (CEDQ_try_beams event this H1 H2 H3) as (this' & Ht & _).
    unfold ComputeEventDependentQuantities. rewrite Ht. now split.
  - left. split; [ auto | ].
    assert (Hm : ComputeEventDependentQuantities_try event this
                 = (this, inl missing_track))
      by (apply CEDQ_try_missing; rewrite H3; auto).
    unfold ComputeEventDependentQuantities. rewrite Hm.
    split; [ exists missing_track; now split | exact (fun H => H) ].
  - left. split; [ auto | ].
    assert (Hm : ComputeEventDependentQuantities_try event this
                 = (this, inl missing_track))
      by (apply CEDQ_try_missing; rewrite H2; auto).
    unfold ComputeEventDependentQuantities. rewrite Hm.
    split; [ exists missing_track; now split | exact (fun H => H) ].
  - left. split; [ auto | ].
    assert (Hm : ComputeEventDependentQuantities_try event this
                 = (this, inl missing_track))
      by (apply CEDQ_try_missing; auto).
    unfold ComputeEventDependentQuantities. rewrite Hm.
    split; [ exists missing_track; now split | exact (fun H => H) ].
Qed.

(** A fresh particle in an event with fewer than four tracks: the call
    returns it unchanged, with one line written. *)
Lemma CEDQ_example_missing_beams :
  ComputeEventDependentQuantities example_event example_child =
  (example_child,
   ["Exception in Particle::ComputeEventDependentQuantities: GetTrack: no such track"%string]).
Proof.
  unfold ComputeEventDependentQuantities.
  rewrite CEDQ_try_missing; [ reflexivity | ].
  right. right. reflexivity.
Qed.

(** The Bjorken z the call leaves in the particle. *)
Lemma CEDQ_z (event : EventMC D) (this : ParticleMC D) :
  z (fst (ComputeEventDependentQuantities event this)) =
  match GetTrack event 1, GetTrack event 2, GetTrack event 3 with
  | Some h, Some _, Some b =>
      d_div (Dot (Get4Vector h) (Get4Vector this))
            (Dot (Get4Vector h) (Get4Vector b))
  | _, _, _ => z this
  end.
Proof.
  destruct (GetTrack event 1) as [h | ] eqn:H1;
    [ destruct (GetTrack event 2) as [l | ] eqn:H2;
      [ destruct (GetTrack event 3) as [b | ] eqn:H3 | ] | ].
  - destruct (CEDQ_try_beams event this H1 H2 H3) as (this' & Ht & Hz & _).
    unfold ComputeEventDependentQuantities. now rewrite Ht.
  - unfold ComputeEventDependentQuantities.
    rewrite CEDQ_try_missing by (rewrite H3; auto). reflexivity.
  - unfold ComputeEventDependentQuantities.
    rewrite CEDQ_try_missing by (rewrite H2; auto). reflexivity.
  - unfold ComputeEventDependentQuantities.
    rewrite CEDQ_try_missing by auto. reflexivity.
Qed.

Lemma GetTrack_boost_event (b : TVector3 D) (event : EventMC D) (i : Z) :
  GetTrack (boost_event b event) i =
  option_map (boost_particle b) (GetTrack event i).
Proof. unfold GetTrack, boost_event. cbn. apply nth_error_map. Qed.

Lemma Get4Vector_boost_particle (b : TVector3 D) (q : ParticleMC D) :
  Get4Vector (boost_particle b q) = Boost b (Get4Vector q).
Proof.
  unfold boost_particle. apply Get4Vector_Set4Vector.
Qed.

End EventDependent.

(** ** Frame invariance of Bjorken z *)

Section BoostInvariance.
Import Exact.
Local Open Scope R_scope.

(** The algebra of a boost: with gamma^2 (1 - b^2) = 1 and
    gamma2 b^2 = gamma - 1 the Minkowski product is unchanged. *)
Lemma boost_dot_algebra (bx by' bz g k X1 Y1 Z1 T1 X2 Y2 Z2 T2 : R) :
  let b2 := bx * bx + by' * by' + bz * bz in
  let bp1 := bx * X1 + by' * Y1 + bz * Z1 in
  let bp2 := bx * X2 + by' * Y2 + bz * Z2 in
  g * g * (1 - b2) = 1 -> k * b2 = g - 1 -> g * g - k * (g + 1) = 0 ->
  g * (T1 + bp1) * (g * (T2 + bp2))
  - (Z1 + k * bp1 * bz + g * bz * T1) * (Z2 + k * bp2 * bz + g * bz * T2)
  - (Y1 + k * bp1 * by' + g * by' * T1) * (Y2 + k * bp2 * by' + g * by' * T2)
  - (X1 + k * bp1 * bx + g * bx * T1) * (X2 + k * bp2 * bx + g * bx * T2)
  = T1 * T2 - Z1 * Z2 - Y1 * Y2 - X1 * X2.
Proof.
  intros b2 bp1 bp2 Hg Hk H3.
  set (F1 := g * g * (1 - b2) - 1).
  set (F2 := k * b2 - (g - 1)).
  set (F3 := g * g - k * (g + 1)).
  assert (HF1 : F1 = 0) by (unfold F1; lra).
  assert (HF2 : F2 = 0) by (unfold F2; lra).
  assert (HF3 : F3 = 0) by (unfold F3; lra).
  match goal with
  | |- ?l = ?r =>
      replace l with
        (r + T1 * T2 * F1 - (T1 * bp2 + T2 * bp1) * g * F2
         + bp1 * bp2 * (F3 - k * F2))
        by (unfold F1, F2, F3, b2, bp1, bp2; ring)
  end.
  rewrite HF1, HF2, HF3. ring.
Qed.

Lemma sum_squares_zero (a b c : R) :
  a * a + b * b + c * c = 0 -> a = 0 /\ b = 0 /\ c = 0.
Proof. intros H. repeat split; nra. Qed.

(** [TLorentzVector::Dot] is invariant under [TLorentzVector::Boost] by a
    velocity slower than light. *)
Lemma Dot_Boost (b : TVector3 R) (v q : TLorentzVector R) :
  vX b * vX b + vY b * vY b + vZ b * vZ b < 1 ->
  Dot (Boost b v) (Boost b q) = Dot v q.
Proof.
  intros Hb. destruct b as [bx by' bz], v as [X1 Y1 Z1 T1], q as [X2 Y2 Z2 T2].
  cbn in Hb. unfold Dot, Boost.
  cbn [Px Py Pz Energy vX vY vZ d_add d_sub d_mul d_div d_lit d_lt d_sqrt
       R_double].
  set (b2 := bx * bx + by' * by' + bz * bz) in *.
  set (s := R_sqrt.sqrt (1 - b2)).
  assert (Hs : 0 < s) by (apply sqrt_lt_R0; lra).
  assert (Hss : s * s = 1 - b2) by (apply sqrt_sqrt; lra).
  set (g := 1 / s).
  assert (Hg : g * g * (1 - b2) = 1).
  { unfold g. rewrite <- Hss. field. lra. }
  unfold R_lt. destruct (Rlt_dec 0 b2) as [Hpos | Hzero].
  - set (k := (g - 1) / b2).
    assert (Hk : k * b2 = g - 1) by (unfold k; field; lra).
    assert (H3 : g * g - k * (g + 1) = 0).
    { apply (Rmult_eq_reg_l b2); [ | lra ].
      replace (b2 * (g * g - k * (g + 1)))
        with (g * g * b2 - (k * b2) * (g + 1)) by ring.
      rewrite Hk. nra. }
    exact (@boost_dot_algebra bx by' bz g k X1 Y1 Z1 T1 X2 Y2 Z2 T2
             Hg Hk H3).
  - assert (Hb2 : 0 <= b2) by (unfold b2; nra).
    assert (Hb0 : b2 = 0)
      by (apply Rle_antisym; [ now apply Rnot_lt_le | exact Hb2 ]).
    destruct (@sum_squares_zero bx by' bz Hb0) as (Hx & Hy & Hz).
    subst bx by' bz.
    assert (Hs1 : s = 1).
    { unfold s. rewrite Hb0. replace (1 - 0) with 1 by ring. apply sqrt_1. }
    unfold g. rewrite Hs1. field.
Qed.

Context {root : RootOps R}.

(** C2: the z that [ComputeEventDependentQuantities] assigns is the quotient
    of the Minkowski products (metric +,-,-,-) hadron.particle and
    hadron.boson, and it is the same when one Lorentz boost is applied to the
    hadron, the boson and the particle (to every track of the event) before
    z is computed again. *)
Theorem z_boost_invariant (B : LorentzBoost) (event : EventMC R)
    (this : ParticleMC R) :
  (forall v q : TLorentzVector R,
     Dot v q = Energy v * Energy q - Pz v * Pz q - Py v * Py q - Px v * Px q) /\
  (forall h l b : ParticleMC R,
     GetTrack event 1 = Some h -> GetTrack event 2 = Some l ->
     GetTrack event 3 = Some b ->
     z (fst (ComputeEventDependentQuantities event this)) =
     Dot (Get4Vector h) (Get4Vector this) / Dot (Get4Vector h) (Get4Vector b)) /\
  (forall hadron boson particle : TLorentzVector R,
     Dot (Boost (velocity B) hadron) (Boost (velocity B) particle)
     / Dot (Boost (velocity B) hadron) (Boost (velocity B) boson)
     = Dot hadron particle / Dot hadron boson) /\
  z (fst (ComputeEventDependentQuantities
            (boost_event (velocity B) event)
            (boost_particle (velocity B) this)))
  = z (fst (ComputeEventDependentQuantities event this)).
Proof.
  pose proof (slower_than_light B) as Hb.
  split; [ reflexivity | ].
  split; [ intros h l b H1 H2 H3; rewrite CEDQ_z, H1, H2, H3; reflexivity | ].
  split; [ intros; now rewrite !Dot_Boost | ].
  rewrite !CEDQ_z, !GetTrack_boost_event.
  destruct (GetTrack event 1) as [h | ]; [ | reflexivity ].
  destruct (GetTrack event 2) as [l | ]; [ | reflexivity ].
  destruct (GetTrack event 3) as [b | ]; [ | reflexivity ].
  cbn [option_map]. rewrite !Get4Vector_boost_particle.
  cbn [d_div R_double]. now rewrite !Dot_Boost.
Qed.

End BoostInvariance.

(** There are such boosts: three fifths of the speed of light along x. *)
Lemma LorentzBoost_example :
  exists B : LorentzBoost, velocity B = mkTVector3 (3 / 5)%R 0%R 0%R.
Proof.
  assert (H : (3 / 5 * (3 / 5) + 0 * 0 + 0 * 0 < 1)%R) by lra.
  now exists (@mkLorentzBoost (mkTVector3 (3 / 5)%R 0%R 0%R) H).
Qed.

(** ** Ranges of the frame-independent quantities *)

Section Ranges.
Import Exact.
Local Open Scope R_scope.

Lemma ParticleMC_init_ranges : kinematic_ranges ParticleMC_init.
Proof.
  pose proof PI_RGT_0. unfold kinematic_ranges. cbn. lra.
Qed.

(** C9, in exact real arithmetic: for every particle whose momentum and
    energy are real numbers, the quantities [ComputeDerivedQuantities]
    derives satisfy pt >= 0, p >= pt, theta in [0, pi] and phi in [0, 2 pi);
    so they do after [Set4Vector] and for every particle the constructor
    returns.  In binary64 the upper end of the range of phi is reached
    ([CDQ_binary64_phi_two_pi] below). *)
Theorem derived_quantities_ranges :
  (forall this : ParticleMC R,
     let q := ComputeDerivedQuantities this in
     0 <= pt q /\ pt q <= p q /\ 0 <= theta q <= PI /\ 0 <= phi q < 2 * PI) /\
  (forall (v : TLorentzVector R) (this : ParticleMC R),
     kinematic_ranges (Set4Vector v this)) /\
  (forall (num_get : NumGet R) (line : string) (q : ParticleMC R),
     ParticleMC_new line = inr q -> kinematic_ranges q).
Proof.
  split; [ exact CDQ_ranges | ].
  split; [ intros v this; apply CDQ_ranges | ].
  intros num_get line q Hq.
  destruct (is_empty line) eqn:He.
  - destruct line; [ | discriminate ].
    injection Hq as <-. apply ParticleMC_init_ranges.
  - destruct (ParticleMC_new_inr _ He Hq) as (f & _ & ->). apply CDQ_ranges.
Qed.

End Ranges.

Section Binary64Ranges.
Local Open Scope float_scope.

(** C9 as stated fails in double arithmetic, at the upper end of phi.  After
    [Set4Vector] with the finite four-momentum (1, -2^-70, 0, 2),
    [atan2(py, px)] is a negative angle of size about 2^-70; the second loop
    of [TVector2::Phi_0_2pi] adds 2 pi to it, and the sum rounds to the
    double 2 pi itself.  So phi equals [kTWOPI] and phi < 2 pi does not
    hold; pt = p = 1 and theta, about pi/2, are within their ranges. *)
Lemma CDQ_binary64_phi_two_pi :
  let v := rounding_vector in
  let q := Set4Vector v ParticleMC_init in
  (is_finite (Px v) && is_finite (Py v) && is_finite (Pz v)
   && is_finite (Energy v) = true) /\
  Get4Vector q = v /\
  ((d_atan2 (py q) (px q) <? 0) = true) /\
  ((-0x1p-69 <? d_atan2 (py q) (px q)) = true) /\
  phi q = d_twopi /\
  ((phi q <? d_twopi) = false) /\
  pt q = 1 /\ p q = 1 /\
  ((0 <=? theta q) && (theta q <=? Binary64.pi) = true).
Proof. vm_compute. repeat split; reflexivity. Qed.

End Binary64Ranges.

(** ** Beam identification *)

Section Beams.

Context {D : Type} {ops : DoubleOps D} {identifier : ParticleIdentifier D}.

Lemma GetLeptonBeamPdgCode_Set (pdgCode : Z) :
  GetLeptonBeamPdgCode (SetLeptonBeamPdgCode pdgCode identifier) = pdgCode.
Proof. reflexivity. Qed.

Lemma is_null_false (o : option (ParticleMC D)) :
  is_null o = false <-> exists q, o = Some q.
Proof.
  destruct o as [q | ]; cbn; split; try discriminate.
  - intros _. now exists q.
  - reflexivity.
  - now intros [q [=]].
Qed.

Lemma is_null_not_None (o : option (ParticleMC D)) :
  is_null o = false <-> o <> None.
Proof. destruct o; cbn; split; congruence. Qed.

(** C5, on the model of the spec: both overloads return true exactly when
    the incident lepton, the incident hadron, the exchanged boson and the
    scattered lepton are all resolved; the vector overload fills exactly four
    entries, in that order, with a null pointer for each role not resolved;
    and the scattered hadron is never identified. *)
Theorem IdentifyBeams_found_iff (event : EventMC D) :
  let beams := fst (IdentifyBeams_vector event) in
  beams = [identify event IncidentLepton; identify event IncidentHadron;
           identify event ExchangedBoson; identify event ScatteredLepton] /\
  List.length beams = 4%nat /\
  (snd (IdentifyBeams_vector event) = true <->
   (exists l h b s,
      identify event IncidentLepton = Some l /\
      identify event IncidentHadron = Some h /\
      identify event ExchangedBoson = Some b /\
      identify event ScatteredLepton = Some s)) /\
  (snd (IdentifyBeams_vector event) = true <->
   Forall (fun o => o <> None) beams) /\
  snd (IdentifyBeams event) = snd (IdentifyBeams_vector event) /\
  (forall role, fst (IdentifyBeams event) role = identify event role) /\
  fst (IdentifyBeams event) ScatteredHadron = None.
Proof.
  cbv zeta. unfold IdentifyBeams, IdentifyBeams_vector.
  cbn [fst snd map List.length existsb].
  split; [ reflexivity | ]. split; [ reflexivity | ].
  rewrite negb_true_iff, !orb_false_iff.
  split; [ | split; [ | repeat split ] ].
  - rewrite !is_null_false. split.
    + intros ([l Hl] & [h Hh] & [b Hb] & [s Hs] & _). now exists l, h, b, s.
    + intros (l & h & b & s & Hl & Hh & Hb & Hs).
      repeat split; eauto.
  - rewrite !Forall_cons_iff, <- !is_null_not_None.
    split; [ | tauto ].
    intros (Hl & Hh & Hb & Hs & _). repeat split; try assumption.
    constructor.
Qed.

End Beams.

(** * Further properties of the member functions *)

(** ** [HasChild] *)

Section Children.

Context {D : Type} {ops : DoubleOps D}.

Lemma UShort_t_small (x : Z) : (0 <= x < 2 ^ 16)%Z -> UShort_t x = x.
Proof. intros H. unfold UShort_t. now apply Z.mod_small. Qed.

(** The loop finds a child exactly when one of the offsets it visits gives
    a child of that species. *)
Lemma HasChild_loop_true (event : option (EventMC D)) (this : ParticleMC D)
    (pdg : Z) (n : nat) :
  forall i : Z,
    HasChild_loop event this pdg i n = true <->
    exists j c, (0 <= j < Z.of_nat n)%Z /\
      fst (GetChild event this (UShort_t (i + j))) = Some c /\ id c = pdg.
Proof.
  induction n as [ | n IH]; intros i.
  - cbn. split; [ discriminate | ]. intros (j & c & Hj & _). lia.
  - cbn [HasChild_loop].
    destruct (fst (GetChild event this (UShort_t i))) as [c | ] eqn:Hc.
    + destruct (Z.eqb_spec pdg (id c)) as [He | Hne].
      * split; [ intros _ | reflexivity ].
        exists 0%Z, c. rewrite Z.add_0_r. repeat split; try lia; auto.
      * rewrite IH. split.
        -- intros (j & c' & Hj & Hg & Hid). exists (j + 1)%Z, c'.
           replace (i + (j + 1))%Z with (i + 1 + j)%Z by lia.
           repeat split; try lia; auto.
        -- intros (j & c' & Hj & Hg & Hid).
           destruct (Z.eq_dec j 0) as [-> | Hj0].
           ++ rewrite Z.add_0_r, Hc in Hg. injection Hg as <-. congruence.
           ++ exists (j - 1)%Z, c'.
              replace (i + 1 + (j - 1))%Z with (i + j)%Z by lia.
              repeat split; try lia; auto.
    + rewrite IH. split.
      * intros (j & c' & Hj & Hg & Hid). exists (j + 1)%Z, c'.
        replace (i + (j + 1))%Z with (i + 1 + j)%Z by lia.
        repeat split; try lia; auto.
      * intros (j & c' & Hj & Hg & Hid).
        destruct (Z.eq_dec j 0) as [-> | Hj0].
        -- rewrite Z.add_0_r, Hc in Hg. discriminate.
        -- exists (j - 1)%Z, c'.
           replace (i + 1 + (j - 1))%Z with (i + j)%Z by lia.
           repeat split; try lia; auto.
Qed.

(** X1: for a particle with children (first-daughter index at least 1, at
    most 65536 of them) [HasChild(pdg)] is true exactly when the event's
    particle list holds a particle of species [pdg] at one of the 0-based
    indices first-daughter - 1 to last-daughter - 1; daughter indices beyond
    the end of the list are passed over. *)
Theorem HasChild_scans_daughters (ev : EventMC D) (this : ParticleMC D)
    (pdg : Z) :
  (1 <= daughter this < 2 ^ 31)%Z ->
  (0 <= GetNChildren this <= 2 ^ 16)%Z ->
  (HasChild (Some ev) this pdg = true <->
   exists k q, (daughter this - 1 <= k <= ldaughter this - 1)%Z /\
     nth_error (particles ev) (Z.to_nat k) = Some q /\ id q = pdg).
Proof.
  intros Hd Hn. unfold HasChild. rewrite HasChild_loop_true.
  rewrite UInt_t_small by lia. rewrite Z2Nat.id by lia.
  unfold GetNChildren in Hn.
  split.
  - intros (j & c & Hj & Hg & Hid). unfold GetNChildren in Hj.
    rewrite Z.add_0_l, UShort_t_small in Hg by lia.
    rewrite GetChild_unfold in Hg by lia.
    destruct ((1 <=? daughter this) && (j <? GetNChildren this)
              && (daughter this + j - 1 <? GetNTracks ev))%Z;
      [ | discriminate ].
    cbn [fst] in Hg. exists (daughter this + j - 1)%Z, c.
    repeat split; try lia; auto.
  - intros (k & q & Hk & Hq & Hid).
    exists (k - (daughter this - 1))%Z, q. unfold GetNChildren.
    split; [ lia | ]. split; [ | exact Hid ].
    rewrite Z.add_0_l, UShort_t_small by lia.
    rewrite GetChild_unfold by lia.
    assert (Hlen : (k < GetNTracks ev)%Z).
    { assert (Hs : nth_error (particles ev) (Z.to_nat k) <> None)
        by congruence.
      apply nth_error_Some in Hs. unfold GetNTracks. lia. }
    unfold GetNChildren.
    destruct (Z.leb_spec 1 (daughter this)); [ | lia ].
    destruct (Z.ltb_spec (k - (daughter this - 1))
                (ldaughter this - daughter this + 1)); [ | lia ].
    destruct (Z.ltb_spec (daughter this + (k - (daughter this - 1)) - 1)
                (GetNTracks ev)); [ | lia ].
    cbn [andb fst].
    replace (daughter this + (k - (daughter this - 1)) - 1)%Z with k by lia.
    exact Hq.
Qed.

(** X2: a particle that belongs to no event, or whose first-daughter index
    is below 1, has no child of any species. *)
Theorem HasChild_without_children (event : option (EventMC D))
    (this : ParticleMC D) (pdg : Z) :
  event = None \/ (daughter this < 1)%Z ->
  HasChild event this pdg = false.
Proof.
  intros H. unfold HasChild.
  destruct (HasChild_loop event this pdg 0
              (Z.to_nat (UInt_t (GetNChildren this)))) eqn:Hl;
    [ | reflexivity ].
  apply HasChild_loop_true in Hl. destruct Hl as (j & c & _ & Hg & _).
  unfold GetChild in Hg. destruct H as [-> | H]; [ discriminate | ].
  destruct event as [ev | ]; [ | discriminate ].
  destruct (Z.ltb_spec (daughter this) 1); [ discriminate | lia ].
Qed.

End Children.

(** X1 at the four-particle example: the first particle, with daughters 2
    to 4, has a photon (species 22) among its children. *)
Lemma HasChild_scans_daughters_witness :
  ((1 <= daughter (example_parent (D := R)) < 2 ^ 31)%Z /\
   (0 <= GetNChildren (example_parent (D := R)) <= 2 ^ 16)%Z) /\
  HasChild (Some example_event4) (example_parent (D := R)) 22 = true.
Proof.
  assert (Hd : (1 <= daughter (example_parent (D := R)) < 2 ^ 31)%Z)
    by (cbn; lia).
  assert (Hn : (0 <= GetNChildren (example_parent (D := R)) <= 2 ^ 16)%Z)
    by (cbn; lia).
  split; [ now split | ].
  apply (@HasChild_scans_daughters R example_event4 example_parent 22%Z
           Hd Hn).
  exists 3%Z, example_photon. split; [ cbn; lia | ]. split; reflexivity.
Defined.

(** X2 at the example: the second particle has first-daughter index 0. *)
Lemma HasChild_without_children_witness :
  (Some (example_event (D := R)) = None \/
   (daughter (example_child (D := R)) < 1)%Z) /\
  HasChild (Some example_event) (example_child (D := R)) 11 = false.
Proof.
  assert (H : Some (example_event (D := R)) = None \/
              (daughter (example_child (D := R)) < 1)%Z)
    by (right; cbn; lia).
  exact (conj H (@HasChild_without_children R _ _ 11%Z H)).
Defined.

(** ** [GetChild] and [GetParent] within the particle list *)

(** X3 at the example: [GetChild(0)] on the first particle looks up index 1
    of three. *)
Lemma GetChild_lookups_in_bounds_witness :
  ((0 <= 0 < 2 ^ 16)%Z /\
   (- 2 ^ 31 <= daughter (example_beam (D := R)) < 2 ^ 31)%Z /\
   In 1%Z (snd (GetChild (Some example_event) (example_beam (D := R)) 0))) /\
  (0 <= 1 < GetNTracks (example_event (D := R)))%Z.
Proof.
  assert (Hu : (0 <= 0 < 2 ^ 16)%Z) by lia.
  assert (Hd : (- 2 ^ 31 <= daughter (example_beam (D := R)) < 2 ^ 31)%Z)
    by (cbn; lia).
  assert (Hi : In 1%Z (snd (GetChild (Some example_event)
                              (example_beam (D := R)) 0)))
    by (left; reflexivity).
  split; [ exact (conj Hu (conj Hd Hi)) | ].
  exact (@GetChild_lookups_in_bounds R example_event example_beam 0%Z 1%Z
           Hu Hd Hi).
Defined.

(** X4: [GetParent] for a particle with a positive origin index (below
    2^32): the result is the entry of the particle list at 0-based index
    origin - 1, a particle exactly when the origin index is at most N, and
    no lookup leaves the list. *)
Theorem GetParent_positive_origin (D : Type) (ev : EventMC D)
    (this : ParticleMC D) :
  (1 <= orig this < 2 ^ 32)%Z -> (GetNTracks ev < 2 ^ 32)%Z ->
  fst (GetParent (Some ev) this)
  = nth_error (particles ev) (Z.to_nat (orig this - 1)) /\
  (fst (GetParent (Some ev) this) <> None <->
   (orig this <= GetNTracks ev)%Z) /\
  (forall i : Z, In i (snd (GetParent (Some ev) this)) ->
                 (0 <= i < GetNTracks ev)%Z).
Proof.
  intros Ho Hn.
  destruct (Z.le_gt_cases (orig this) (GetNTracks ev)) as [Hle | Hgt].
  - destruct (@GetParent_in_range D ev this (conj (proj1 Ho) Hle) Hn)
      as [Heq [q Hq]].
    split; [ rewrite Heq; reflexivity | ].
    split.
    + split; [ intros _; exact Hle | intros _; rewrite Hq; discriminate ].
    + rewrite Heq. cbn [snd]. intros i [<- | []]. lia.
  - rewrite (@GetParent_above D ev this) by lia. cbn [fst snd].
    split; [ | split ].
    + symmetry. apply nth_error_None. unfold GetNTracks in Hgt. lia.
    + split; [ intros H; now elim H | lia ].
    + intros i [].
Qed.

(** X4 at the example: the second particle has origin index 1 of three, and
    its parent is the first particle. *)
Lemma GetParent_positive_origin_witness :
  ((1 <= orig (example_child (D := R)) < 2 ^ 32)%Z /\
   (GetNTracks (example_event (D := R)) < 2 ^ 32)%Z) /\
  fst (GetParent (Some example_event) (example_child (D := R)))
  = Some example_beam.
Proof.
  assert (Ho : (1 <= orig (example_child (D := R)) < 2 ^ 32)%Z)
    by (cbn; lia).
  assert (Hn : (GetNTracks (example_event (D := R)) < 2 ^ 32)%Z)
    by (cbn; lia).
  split; [ now split | ].
  destruct (@GetParent_positive_origin R example_event example_child Ho Hn)
    as [-> _].
  reflexivity.
Defined.

(** ** White space before the record *)

Section LeadingSpace.

Context {D : Type} {ops : DoubleOps D} {num_get : NumGet D}.

Lemma skipws_all_space (ws line : string) :
  all_space ws = true -> skipws (ws ++ line) = skipws line.
Proof.
  induction ws as [ | c ws IH]; [ reflexivity | ].
  cbn. intros H. apply andb_true_iff in H. destruct H as [Hc Hw].
  rewrite Hc. now apply IH.
Qed.

Lemma parses_leading_space (ws line : string) (f : Fields D) :
  all_space ws = true -> (parses (ws ++ line) f <-> parses line f).
Proof.
  intros Hw. unfold parses, reads. rewrite (@skipws_all_space ws line Hw).
  reflexivity.
Qed.

(** X6: white space in front of a record is skipped: the constructor builds
    the same particle from the line with and without it, and throws for the
    one exactly when it throws for the other. *)
Theorem ParticleMC_new_leading_space (ws line : string) :
  all_space ws = true -> line <> EmptyString ->
  (forall q, ParticleMC_new (ws ++ line) = inr q <->
             ParticleMC_new line = inr q) /\
  ((exists e, ParticleMC_new (ws ++ line) = inl e) <->
   (exists e, ParticleMC_new line = inl e)).
Proof.
  intros Hw Hne.
  assert (He : is_empty line = false)
    by (destruct line; [ now elim Hne | reflexivity ]).
  assert (He' : is_empty (ws ++ line) = false).
  { destruct ws; [ exact He | reflexivity ]. }
  assert (Hq : forall q, ParticleMC_new (ws ++ line) = inr q <->
                         ParticleMC_new line = inr q).
  { intros q. split; intros H.
    - destruct (ParticleMC_new_inr _ He' H) as (f & Hf & ->).
      apply (proj1 (@parses_leading_space ws line f Hw)) in Hf.
      now apply ParticleMC_new_parses.
    - destruct (ParticleMC_new_inr _ He H) as (f & Hf & ->).
      apply (proj2 (@parses_leading_space ws line f Hw)) in Hf.
      now apply ParticleMC_new_parses. }
  split; [ exact Hq | ].
  split; intros [e H].
  - destruct (ParticleMC_new line) as [e' | q] eqn:Hn; [ now exists e' | ].
    destruct (Hq q) as [_ Hb]. rewrite Hb in H by reflexivity. discriminate.
  - destruct (ParticleMC_new (ws ++ line)) as [e' | q] eqn:Hn;
      [ now exists e' | ].
    destruct (Hq q) as [Ha _]. rewrite Ha in H by reflexivity. discriminate.
Qed.

End LeadingSpace.

(** X6 at the example record, indented by two blanks. *)
Lemma ParticleMC_new_leading_space_witness :
  (all_space "  " = true /\ example_line <> EmptyString) /\
  (forall q : ParticleMC R,
     ParticleMC_new ("  " ++ example_line) = inr q <->
     ParticleMC_new example_line = inr q).
Proof.
  assert (Hw : all_space "  " = true) by reflexivity.
  assert (Hne : example_line <> EmptyString) by discriminate.
  split; [ now split | ].
  exact (proj1 (@ParticleMC_new_leading_space R _ _ "  " example_line
                  Hw Hne)).
Defined.

(** ** What [ComputeEventDependentQuantities] leaves alone *)

Section EventDependentFrame.

Context {D : Type} {ops : DoubleOps D} {root : RootOps D}.

(** The particle after the [try] block when the beams are there: only the
    six event-dependent members may differ. *)
Lemma CEDQ_try_beams_frame (event : EventMC D) (this h l b : ParticleMC D) :
  GetTrack event 1 = Some h -> GetTrack event 2 = Some l ->
  GetTrack event 3 = Some b ->
  exists zv' xF tG pG pP pid,
    ComputeEventDependentQuantities_try event this =
    (mkParticleMC (I this) (KS this) (id this) (orig this) (daughter this)
       (ldaughter this) (px this) (py this) (pz this) (E this) (m this)
       (pt this) (xv this) (yv this) (zv this) pid
       (p this) (theta this) (phi this) (rapidity this) (eta this)
       zv' xF tG pG pP, inr tt) /\
    (pid =
     if (UInt_t (orig this - 1) <? GetNTracks event)%Z
     then match GetTrack event (orig this - 1) with
          | Some parent => id parent
          | None => parentId this
          end
     else parentId this).
Proof.
  intros H1 H2 H3.
  unfold ComputeEventDependentQuantities_try, bind, GetTrack_deref.
  rewrite H1, H2, H3. cbn -[GetTrack computeBoost UInt_t].
  destruct (UInt_t (orig this - 1) <? GetNTracks event)%Z eqn:Hguard.
  - destruct (GetTrack_wrapped _ _ Hguard) as [parent Hp].
    rewrite Hp. cbn -[computeBoost]. do 6 eexists.
    split; reflexivity.
  - cbn -[computeBoost]. do 6 eexists. split; reflexivity.
Qed.

(** X7: whatever the event holds, [ComputeEventDependentQuantities] changes
    neither the four-momentum, nor the mass and vertex, nor the index,
    status, species and lineage members, nor the six quantities
    [ComputeDerivedQuantities] derives. *)
Theorem CEDQ_keeps_intrinsic_members (event : EventMC D)
    (this : ParticleMC D) :
  let q := fst (ComputeEventDependentQuantities event this) in
  Get4Vector q = Get4Vector this /\
  (m q = m this /\ xv q = xv this /\ yv q = yv this /\ zv q = zv this) /\
  (I q = I this /\ KS q = KS this /\ id q = id this /\ orig q = orig this /\
   daughter q = daughter this /\ ldaughter q = ldaughter this) /\
  (pt q = pt this /\ p q = p this /\ theta q = theta this /\
   phi q = phi this /\ rapidity q = rapidity this /\ eta q = eta this).
Proof.
  cbv zeta. unfold ComputeEventDependentQuantities.
  destruct (GetTrack event 1) as [h | ] eqn:H1;
    [ destruct (GetTrack event 2) as [l | ] eqn:H2;
      [ destruct (GetTrack event 3) as [b | ] eqn:H3 | ] | ].
  - destruct (CEDQ_try_beams_frame event this H1 H2 H3)
      as (zv' & xF & tG & pG & pP & pid & -> & _).
    cbn. repeat split.
  - rewrite CEDQ_try_missing by (rewrite H3; auto). cbn. repeat split.
  - rewrite CEDQ_try_missing by (rewrite H2; auto). cbn. repeat split.
  - rewrite CEDQ_try_missing by auto. cbn. repeat split.
Qed.

Lemma UInt_t_negative (x : Z) :
  (- 2 ^ 32 <= x < 0)%Z -> UInt_t x = (x + 2 ^ 32)%Z.
Proof.
  intros H. unfold UInt_t. symmetry.
  apply (Z.mod_unique x (2 ^ 32) (-1) (x + 2 ^ 32)); lia.
Qed.

(** X8: the parent species code.  [ComputeEventDependentQuantities] sets
    [parentId] to the species code of the particle at 0-based index
    orig - 1 when the three beam tracks are there and the origin index is
    from 1 to N; it leaves [parentId] as it was when a beam track is
    missing, when the origin index is 0 or negative, and when it is above
    N. *)
Theorem CEDQ_parentId (event : EventMC D) (this : ParticleMC D) :
  let q := fst (ComputeEventDependentQuantities event this) in
  let beams := exists h l b, GetTrack event 1 = Some h /\
                 GetTrack event 2 = Some l /\ GetTrack event 3 = Some b in
  (~ beams -> parentId q = parentId this) /\
  (beams -> (1 <= orig this <= GetNTracks event)%Z ->
   (GetNTracks event < 2 ^ 32)%Z ->
   exists parent,
     nth_error (particles event) (Z.to_nat (orig this - 1)) = Some parent /\
     parentId q = id parent) /\
  ((- 2 ^ 31 <= orig this <= 0)%Z \/
   (GetNTracks event < orig this < 2 ^ 32)%Z ->
   (GetNTracks event < 2 ^ 31)%Z ->
   parentId q = parentId this).
Proof.
  cbv zeta. unfold ComputeEventDependentQuantities.
  destruct (GetTrack event 1) as [h | ] eqn:H1;
    [ destruct (GetTrack event 2) as [l | ] eqn:H2;
      [ destruct (GetTrack event 3) as [b | ] eqn:H3 | ] | ].
  - destruct (CEDQ_try_beams_frame event this H1 H2 H3)
      as (zv' & xF & tG & pG & pP & pid & -> & Hpid).
    cbn [fst parentId].
    split; [ intros N; elim N; now exists h, l, b | ].
    split.
    + intros _ Ho Hn. rewrite Hpid.
      rewrite UInt_t_small by lia.
      destruct (Z.ltb_spec (orig this - 1) (GetNTracks event)); [ | lia ].
      destruct (@GetTrack_Some D event (orig this - 1)%Z) as [parent Hp];
        [ lia | lia | ].
      rewrite Hp. exists parent. split; [ | reflexivity ].
      now rewrite GetTrack_in_range in Hp by lia.
    + intros Ho Hn. rewrite Hpid.
      assert (Hpos : (0 <= GetNTracks event)%Z)
        by (unfold GetNTracks; lia).
      assert (Hge : (GetNTracks event <= UInt_t (orig this - 1))%Z).
      { destruct Ho as [Ho | Ho].
        - rewrite UInt_t_negative by lia. lia.
        - rewrite UInt_t_small by lia. lia. }
      destruct (Z.ltb_spec (UInt_t (orig this - 1)) (GetNTracks event));
        [ lia | reflexivity ].
  - rewrite CEDQ_try_missing by (rewrite H3; auto). cbn.
    split; [ reflexivity | ].
    split; [ intros (h' & l' & b' & _ & _ & [=]) | reflexivity ].
  - rewrite CEDQ_try_missing by (rewrite H2; auto). cbn.
    split; [ reflexivity | ].
    split; [ intros (h' & l' & b' & _ & [=] & _) | reflexivity ].
  - rewrite CEDQ_try_missing by auto. cbn.
    split; [ reflexivity | ].
    split; [ intros (h' & l' & b' & [=] & _) | reflexivity ].
Qed.

(** In the four-particle example the three beam tracks are there: the
    second particle, of origin index 1, gets the species code 11 of the
    first, and the first, of origin index 0, keeps its parent species code
    unset. *)
Lemma CEDQ_parentId_example :
  parentId (fst (ComputeEventDependentQuantities example_event4
                   example_child)) = 11%Z /\
  parentId (fst (ComputeEventDependentQuantities example_event4
                   example_parent)) = Int_t_min.
Proof.
  split.
  - destruct (CEDQ_try_beams_frame example_event4 example_child
                (h := example_child) (l := example_other)
                (b := example_photon) eq_refl eq_refl eq_refl)
      as (zv' & xF & tG & pG & pP & pid & Ht & ->).
    unfold ComputeEventDependentQuantities. rewrite Ht. reflexivity.
  - destruct (CEDQ_try_beams_frame example_event4 example_parent
                (h := example_child) (l := example_other)
                (b := example_photon) eq_refl eq_refl eq_refl)
      as (zv' & xF & tG & pG & pP & pid & Ht & ->).
    unfold ComputeEventDependentQuantities. rewrite Ht. reflexivity.
Qed.

End EventDependentFrame.

(** ** Running [ComputeEventDependentQuantities] again *)

Section Repeat.

Context {D : Type} {ops : DoubleOps D} {root : RootOps D}.

(** With the beams there, the five [Double_t] members the [try] block
    assigns are functions of the particle's four-momentum. *)
Lemma CEDQ_try_beams_values (event : EventMC D) (h l b : ParticleMC D) :
  GetTrack event 1 = Some h -> GetTrack event 2 = Some l ->
  GetTrack event 3 = Some b ->
  exists fz fx ft fp ff : TLorentzVector D -> D,
    forall this : ParticleMC D,
      ComputeEventDependentQuantities_try event this =
      (mkParticleMC (I this) (KS this) (id this) (orig this) (daughter this)
         (ldaughter this) (px this) (py this) (pz this) (E this) (m this)
         (pt this) (xv this) (yv this) (zv this)
         (if (UInt_t (orig this - 1) <? GetNTracks event)%Z
          then match GetTrack event (orig this - 1) with
               | Some parent => id parent
               | None => parentId this
               end
          else parentId this)
         (p this) (theta this) (phi this) (rapidity this) (eta this)
         (fz (Get4Vector this)) (fx (Get4Vector this))
         (ft (Get4Vector this)) (fp (Get4Vector this))
         (ff (Get4Vector this)), inr tt).
Proof.
  intros H1 H2 H3.
  exists (fun v => d_div (Dot (Get4Vector h) v)
                         (Dot (Get4Vector h) (Get4Vector b))).
  exists (fun v =>
            d_div (d_mul (d_lit 2)
                     (Pz (lv_transform v
                            (computeBoost
                               (lv_add (Get4Vector b) (Get4Vector h))
                               (Some (Get4Vector b))))))
                  (d_sqrt (GetW2 event))).
  exists (fun v =>
            Theta (lv_transform v
                     (computeBoost (Get4Vector h) (Some (Get4Vector b))))).
  exists (fun v =>
            Pt (lv_transform v
                  (computeBoost (Get4Vector h) (Some (Get4Vector b))))).
  exists (fun v =>
            computeHermesPhiH
              (lv_transform v
                 (computeBoost (Get4Vector h) (Some (Get4Vector b))))
              (lv_transform (Get4Vector l)
                 (computeBoost (Get4Vector h) (Some (Get4Vector b))))
              (lv_transform (Get4Vector b)
                 (computeBoost (Get4Vector h) (Some (Get4Vector b))))).
  intros this.
  unfold ComputeEventDependentQuantities_try, bind, GetTrack_deref.
  rewrite H1, H2, H3. cbn -[GetTrack computeBoost UInt_t].
  destruct (UInt_t (orig this - 1) <? GetNTracks event)%Z eqn:Hguard.
  - destruct (GetTrack_wrapped _ _ Hguard) as [parent Hp].
    rewrite Hp. reflexivity.
  - reflexivity.
Qed.

(** X5: [ComputeEventDependentQuantities] reads only the event, the
    particle's four-momentum and its origin index, none of which it changes:
    a second call on the same event gives the particle, and the line
    written, of the first. *)
Theorem CEDQ_repeated (event : EventMC D) (this : ParticleMC D) :
  ComputeEventDependentQuantities event
    (fst (ComputeEventDependentQuantities event this))
  = ComputeEventDependentQuantities event this.
Proof.
  destruct (GetTrack event 1) as [h | ] eqn:H1;
    [ destruct (GetTrack event 2) as [l | ] eqn:H2;
      [ destruct (GetTrack event 3) as [b | ] eqn:H3 | ] | ].
  - destruct (CEDQ_try_beams_values event H1 H2 H3)
      as (fz & fx & ft & fp & ff & Hv).
    unfold ComputeEventDependentQuantities.
    rewrite (Hv this). cbn [fst]. rewrite Hv.
    cbn [I KS id orig daughter ldaughter px py pz E m pt xv yv zv parentId
         p theta phi rapidity eta Get4Vector].
    destruct (UInt_t (orig this - 1) <? GetNTracks event)%Z eqn:Hguard;
      [ | reflexivity ].
    destruct (GetTrack_wrapped _ _ Hguard) as [parent Hp].
    rewrite Hp. reflexivity.
  - assert (Hm : forall t, ComputeEventDependentQuantities_try event t
                           = (t, inl missing_track))
      by (intros t; apply CEDQ_try_missing; rewrite H3; auto).
    unfold ComputeEventDependentQuantities.
    rewrite (Hm this). cbn [fst]. rewrite (Hm this). reflexivity.
  - assert (Hm : forall t, ComputeEventDependentQuantities_try event t
                           = (t, inl missing_track))
      by (intros t; apply CEDQ_try_missing; rewrite H2; auto).
    unfold ComputeEventDependentQuantities.
    rewrite (Hm this). cbn [fst]. rewrite (Hm this). reflexivity.
  - assert (Hm : forall t, ComputeEventDependentQuantities_try event t
                           = (t, inl missing_track))
      by (intros t; apply CEDQ_try_missing; auto).
    unfold ComputeEventDependentQuantities.
    rewrite (Hm this). cbn [fst]. rewrite (Hm this). reflexivity.
Qed.

End Repeat.

(** ** Angles and momenta, in exact arithmetic *)

Section Polar.
Import Exact.
Local Open Scope R_scope.

Lemma hypot_factor (x y : R) :
  x <> 0 ->
  0 < R_sqrt.sqrt (1 + (y / x)²) /\
  R_sqrt.sqrt (x * x + y * y) = Rabs x * R_sqrt.sqrt (1 + (y / x)²).
Proof.
  intros Hx.
  assert (H1 : 0 < 1 + (y / x)²) by (pose proof (Rle_0_sqr (y / x)); lra).
  split; [ now apply sqrt_lt_R0 | ].
  rewrite <- sqrt_Rsqr_abs, <- sqrt_mult;
    [ | apply Rle_0_sqr | lra ].
  f_equal. unfold Rsqr. field. exact Hx.
Qed.

(** [atan2(y, x)] is the angle of the point [(x, y)]. *)
Lemma R_atan2_polar (y x : R) :
  x = R_sqrt.sqrt (x * x + y * y) * cos (R_atan2 y x) /\
  y = R_sqrt.sqrt (x * x + y * y) * sin (R_atan2 y x).
Proof.
  unfold R_atan2.
  destruct (Rlt_dec 0 x) as [Hx | Hx].
  - destruct (@hypot_factor x y) as [Hs ->]; [ lra | ].
    rewrite cos_atan, sin_atan, Rabs_right by lra.
    split; field; lra.
  - destruct (Rlt_dec x 0) as [Hx' | Hx'].
    + destruct (@hypot_factor x y) as [Hs ->]; [ lra | ].
      rewrite Rabs_left by lra.
      destruct (Rle_dec 0 y).
      * rewrite neg_cos, neg_sin, cos_atan, sin_atan. split; field; lra.
      * unfold Rminus. rewrite cos_plus, sin_plus, cos_neg, sin_neg.
        rewrite cos_PI, sin_PI, cos_atan, sin_atan. split; field; lra.
    + assert (Hx0 : x = 0) by lra. subst x.
      replace (0 * 0 + y * y) with (y * y) by ring.
      destruct (Rlt_dec 0 y) as [Hy | Hy].
      * rewrite sqrt_square, cos_PI2, sin_PI2 by lra. lra.
      * destruct (Rlt_dec y 0) as [Hy' | Hy'].
        -- rewrite cos_neg, sin_neg, cos_PI2, sin_PI2.
           replace (y * y) with (- y * - y) by ring.
           rewrite sqrt_square by lra. lra.
        -- assert (Hy0 : y = 0) by lra. subst y.
           rewrite Rmult_0_r, sqrt_0. lra.
Qed.

Lemma Phi_0_2pi_cos_sin (x : R) :
  - PI < x <= PI ->
  cos (Phi_0_2pi x) = cos x /\ sin (Phi_0_2pi x) = sin x.
Proof.
  intros [Hlo Hhi].
  unfold Phi_0_2pi, Phi_0_2pi_unrolled. cbn [d_isnan R_double].
  rewrite Phi_sub_atan2, Phi_add_atan2 by assumption.
  destruct (Rlt_dec x 0); [ | now split ].
  rewrite cos_plus, sin_plus, cos_2PI, sin_2PI. split; ring.
Qed.

(** X9: the derived quantities are the spherical coordinates of the
    momentum.  For real components, p^2 = px^2 + py^2 + pz^2 and
    pt^2 = px^2 + py^2; theta is the polar angle, pz = p cos(theta) and
    pt = p sin(theta); phi is the azimuth, px = pt cos(phi) and
    py = pt sin(phi). *)
Theorem CDQ_spherical_coordinates (this : ParticleMC R) :
  let q := ComputeDerivedQuantities this in
  p q * p q = px this * px this + py this * py this + pz this * pz this /\
  pt q * pt q = px this * px this + py this * py this /\
  pz this = p q * cos (theta q) /\ pt q = p q * sin (theta q) /\
  px this = pt q * cos (phi q) /\ py this = pt q * sin (phi q).
Proof.
  intros q.
  assert (Hpt : pt q * pt q = px this * px this + py this * py this).
  { unfold q. rewrite CDQ_pt. apply sqrt_sqrt. nra. }
  assert (Hp : p q * p q = pt q * pt q + pz this * pz this).
  { unfold q. rewrite CDQ_p. apply sqrt_sqrt. nra. }
  split; [ lra | ]. split; [ exact Hpt | ].
  assert (Hth : theta q = R_atan2 (pt q) (pz this)) by reflexivity.
  assert (Hph : phi q = Phi_0_2pi (R_atan2 (py this) (px this)))
    by reflexivity.
  assert (Hpq : p q = R_sqrt.sqrt (pz this * pz this + pt q * pt q)).
  { unfold q at 1. rewrite CDQ_p. fold q. f_equal. ring. }
  assert (Htq : pt q = R_sqrt.sqrt (px this * px this + py this * py this)).
  { unfold q. now rewrite CDQ_pt. }
  destruct (R_atan2_polar (pt q) (pz this)) as [Hz Ht].
  destruct (R_atan2_polar (py this) (px this)) as [Hx Hy].
  destruct (Phi_0_2pi_cos_sin (R_atan2_range (py this) (px this)))
    as [Hc Hs].
  split; [ rewrite Hth, Hpq; exact Hz | ].
  split; [ rewrite Hth, Hpq; exact Ht | ].
  split; [ rewrite Hph, Hc, Htq; exact Hx | ].
  rewrite Hph, Hs, Htq; exact Hy.
Qed.

End Polar.

(** ** Rapidity and pseudorapidity *)

Section Massless.

Context {D : Type} {ops : DoubleOps D}.

(** X10: for a particle whose energy equals the total momentum
    [ComputeDerivedQuantities] computes (a massless particle), rapidity and
    pseudorapidity are the same number, in any arithmetic: the same dummy
    value or the same logarithm. *)
Theorem CDQ_massless (this : ParticleMC D) :
  E this = p (ComputeDerivedQuantities this) ->
  rapidity (ComputeDerivedQuantities this)
  = eta (ComputeDerivedQuantities this).
Proof.
  unfold ComputeDerivedQuantities. cbn [p rapidity eta].
  intros ->. reflexivity.
Qed.

End Massless.

(** X10 at the example beam particle, in binary64: E = 10 = p. *)
Lemma CDQ_massless_witness :
  E (example_beam (D := float))
  = p (ComputeDerivedQuantities (example_beam (D := float))) /\
  rapidity (ComputeDerivedQuantities (example_beam (D := float)))
  = eta (ComputeDerivedQuantities (example_beam (D := float))).
Proof.
  assert (H : E (example_beam (D := float))
              = p (ComputeDerivedQuantities (example_beam (D := float))))
    by (vm_compute; reflexivity).
  exact (conj H (@CDQ_massless float _ example_beam H)).
Defined.

Section Reflection.
Import Exact.
Local Open Scope R_scope.

Lemma reflect_z_pt_p (this : ParticleMC R) :
  pt (reflect_z this) = pt (ComputeDerivedQuantities this) /\
  p (reflect_z this) = p (ComputeDerivedQuantities this).
Proof.
  unfold reflect_z, Set4Vector.
  rewrite !CDQ_p, !CDQ_pt.
  cbn [px py pz Px Py Pz d_neg R_double].
  split; [ reflexivity | ]. f_equal. ring.
Qed.

(** X11, in exact real arithmetic: reversing the sign of pz leaves pt and p
    as they are and, outside the dummy case, turns rapidity and
    pseudorapidity into their negatives; in the dummy case both stay at -19,
    which is therefore not mirrored.  (In double arithmetic the two
    quotients under the logarithms are rounded separately, and the symmetry
    is not claimed.) *)
Theorem CDQ_reflect_z (this : ParticleMC R) :
  let q := ComputeDerivedQuantities this in
  let r := reflect_z this in
  pt r = pt q /\ p r = p q /\
  (~ dummy_case this -> rapidity r = - rapidity q /\ eta r = - eta q) /\
  (dummy_case this -> rapidity r = -19 /\ eta r = -19).
Proof.
  intros q r.
  destruct (reflect_z_pt_p this) as [Hpt Hp]. fold q r in Hpt, Hp.
  split; [ exact Hpt | ]. split; [ exact Hp | ].
  set (this' := mkParticleMC (I this) (KS this) (id this) (orig this)
                  (daughter this) (ldaughter this) (px this) (py this)
                  (- pz this) (E this) (m this) (pt this) (xv this)
                  (yv this) (zv this) (parentId this) (p this) (theta this)
                  (phi this) (rapidity this) (eta this) (z this)
                  (xFeynman this) (thetaGamma this) (ptVsGamma this)
                  (phiPrf this)).
  assert (Hr : r = ComputeDerivedQuantities this') by reflexivity.
  assert (Hd : dummy_case this' <-> dummy_case this).
  { unfold dummy_case. cbv zeta. rewrite <- Hr, Hp. fold q.
    cbn [E pz this']. split; intros [H | [H | [H | H]]]; lra. }
  destruct (CDQ_rapidity_eta this') as [Hr' He'].
  destruct (CDQ_rapidity_eta this) as [Hrq Heq].
  cbv zeta in Hr', He', Hrq, Heq.
  pose proof (CDQ_dummy_iff this') as Hi'.
  pose proof (CDQ_dummy_iff this) as Hi.
  cbv zeta in Hi', Hi.
  rewrite <- Hr in Hr', He', Hi'. rewrite Hp in Hr', He', Hi'.
  fold q in Hrq, Heq, Hi, Hr', He', Hi'.
  cbn [E pz this'] in Hr', He', Hi'.
  split.
  - intros N.
    destruct (R_le (E this - - pz this) 0 || R_eq (p q - - pz this) 0
              || R_eq (p q + - pz this) 0 || R_le (E this + - pz this) 0);
      [ elim N; apply Hd; now apply Hi' | ].
    destruct (R_le (E this - pz this) 0 || R_eq (p q - pz this) 0
              || R_eq (p q + pz this) 0 || R_le (E this + pz this) 0);
      [ elim N; now apply Hi | ].
    unfold dummy_case in N. cbv zeta in N. fold q in N.
    destruct (CDQ_p_bounds this) as [_ Hb]. fold q in Hb.
    assert (Hlo : - p q <= pz this <= p q).
    { unfold Rabs in Hb. destruct (Rcase_abs (pz this)); lra. }
    rewrite Hr', He', Hrq, Heq.
    split.
    + replace ((E this + - pz this) / (E this - - pz this))
        with (/ ((E this + pz this) / (E this - pz this)))
        by (field; lra).
      rewrite ln_Rinv by (apply Rdiv_lt_0_compat; lra). ring.
    + replace ((p q + - pz this) / (p q - - pz this))
        with (/ ((p q + pz this) / (p q - pz this)))
        by (field; lra).
      rewrite ln_Rinv by (apply Rdiv_lt_0_compat; lra). ring.
  - intros C. apply Hd in C. apply Hi' in C.
    rewrite Hr', He', C. now split.
Qed.

(** X12, in exact real arithmetic: a particle without transverse momentum
    (px = py = 0) gets the dummy value -19 for rapidity and pseudorapidity
    alike, whatever its energy, because then p = |pz| and p - pz or p + pz
    is 0; its pt is 0.  (In binary64 the square of a tiny pz can underflow,
    see [CDQ_along_z_binary64_underflow].) *)
Theorem CDQ_along_z (this : ParticleMC R) :
  px this = 0 -> py this = 0 ->
  let q := ComputeDerivedQuantities this in
  pt q = 0 /\ p q = Rabs (pz this) /\ rapidity q = -19 /\ eta q = -19.
Proof.
  intros Hx Hy q.
  assert (Hpt : pt q = 0).
  { unfold q. rewrite CDQ_pt, Hx, Hy.
    replace (0 * 0 + 0 * 0) with 0 by ring. apply sqrt_0. }
  assert (Hp : p q = Rabs (pz this)).
  { unfold q. rewrite CDQ_p. fold q. rewrite Hpt.
    replace (0 * 0 + pz this * pz this) with (Rsqr (pz this))
      by (unfold Rsqr; ring).
    apply sqrt_Rsqr_abs. }
  split; [ exact Hpt | ]. split; [ exact Hp | ].
  assert (Hd : dummy_case this).
  { unfold dummy_case. cbv zeta. fold q. rewrite Hp.
    unfold Rabs. destruct (Rcase_abs (pz this)); lra. }
  apply CDQ_dummy_iff in Hd. cbv zeta in Hd. fold q in Hd.
  destruct (CDQ_rapidity_eta this) as [Hr He]. cbv zeta in Hr, He.
  fold q in Hr, He. rewrite Hr, He, Hd. now split.
Qed.

End Reflection.

(** X12 at a massive particle moving along z, (px, py, pz, E) =
    (0, 0, 3, 5): E - pz = 2 and E + pz = 8 are positive, yet the rapidity
    is the dummy value. *)
Lemma CDQ_along_z_witness :
  let this := example_particle (D := R) 1 1 2212 0 0 0
                (mkTLorentzVector 0%R 0%R 3%R 5%R) in
  (px this = 0%R /\ py this = 0%R) /\
  (0 < E this - pz this)%R /\ (0 < E this + pz this)%R /\
  rapidity (ComputeDerivedQuantities this) = (-19)%R.
Proof.
  intros this.
  assert (Hx : px this = 0%R) by reflexivity.
  assert (Hy : py this = 0%R) by reflexivity.
  split; [ now split | ].
  split; [ cbn; lra | ]. split; [ cbn; lra | ].
  exact (proj1 (proj2 (proj2 (@CDQ_along_z this Hx Hy)))).
Defined.

(** In binary64 p = |pz| can fail: for (px, py, pz, E) = (0, 0, 2^-600, 1)
    the square of pz underflows to 0, so p = 0, neither p - pz nor p + pz is
    0, no test of the dummy case holds, and the pseudorapidity is
    1/2 log(-1), a NaN. *)
Lemma CDQ_along_z_binary64_underflow :
  let q := Set4Vector (mkTLorentzVector 0 0 0x1p-600 1)%float
             ParticleMC_init in
  (px q = 0 /\ py q = 0 /\ pt q = 0 /\ p q = 0)%float /\
  PrimFloat.eqb (p q - pz q) 0 = false /\
  PrimFloat.eqb (p q + pz q) 0 = false /\
  is_nan (eta q) = true.
Proof. vm_compute. repeat split; reflexivity. Qed.

(** ** Setting the four-momentum and the vertex *)

Section Setters.

Context {D : Type} {ops : DoubleOps D}.

(** X13: the derived quantities are a function of the four-momentum alone.
    Computing them a second time changes nothing; of two successive
    [Set4Vector] calls only the second counts; and [Set4Vector] with the
    particle's own four-momentum is [ComputeDerivedQuantities]. *)
Theorem Set4Vector_composition (v w : TLorentzVector D)
    (this : ParticleMC D) :
  ComputeDerivedQuantities (ComputeDerivedQuantities this)
  = ComputeDerivedQuantities this /\
  Set4Vector v (Set4Vector w this) = Set4Vector v this /\
  Set4Vector (Get4Vector this) this = ComputeDerivedQuantities this /\
  Set4Vector v (ComputeDerivedQuantities this) = Set4Vector v this.
Proof. repeat split. Qed.

(** X14: [SetVertex] stores the three coordinates and touches nothing else;
    it commutes with [Set4Vector], and of two successive calls only the
    second counts. *)
Theorem SetVertex_independent (x y : TVector3 D) (v : TLorentzVector D)
    (this : ParticleMC D) :
  (xv (SetVertex x this) = vX x /\ yv (SetVertex x this) = vY x /\
   zv (SetVertex x this) = vZ x) /\
  Get4Vector (SetVertex x this) = Get4Vector this /\
  SetVertex x (Set4Vector v this) = Set4Vector v (SetVertex x this) /\
  SetVertex x (SetVertex y this) = SetVertex x this /\
  ComputeDerivedQuantities (SetVertex x this)
  = SetVertex x (ComputeDerivedQuantities this).
Proof. repeat split. Qed.

End Setters.

(** ** The four-vector in the hadron-boson frame *)

Section HadronBosonFrame.
Import Exact.
Local Open Scope R_scope.


(** The components of that vector, with the tangent written out. *)
Lemma Get4VectorInHadronBosonFrame_transverse_aux (this : ParticleMC R) :
  let v := Get4VectorInHadronBosonFrame this in
  Px v = ptVsGamma this * cos (phiPrf this) /\
  Py v = ptVsGamma this * sin (phiPrf this) /\
  (sin (thetaGamma this) <> 0 -> cos (thetaGamma this) <> 0 ->
   Pz v = ptVsGamma this * cos (thetaGamma this) / sin (thetaGamma this)) /\
  Energy v * Energy v =
    ptVsGamma this / sin (ptVsGamma this)
    * (ptVsGamma this / sin (ptVsGamma this)) + m this * m this.
Proof.
  intros v. unfold v, Get4VectorInHadronBosonFrame.
  cbn [Px Py Pz Energy d_mul d_add d_div d_sqrt d_pow d_lit d_sin d_cos
       d_tan R_double R_trig].
  rewrite !R_pow_2.
  split; [ reflexivity | ]. split; [ reflexivity | ].
  split; [ intros Hs Hc; unfold tan; field; split; assumption | ].
  apply sqrt_sqrt. nra.
Qed.

(** X16, in exact real arithmetic: the invariant mass of that vector.  When
    ptVsGamma is not 0 and the sines and the cosine involved are not 0, the
    vector [Get4VectorInHadronBosonFrame] returns is on the mass shell of
    the particle, E^2 - |p|^2 = m^2, exactly when
    sin^2(ptVsGamma) = sin^2(thetaGamma).  (With rounded sines and tangents
    the equality holds only up to rounding, and is not claimed.) *)
Theorem Get4VectorInHadronBosonFrame_mass_shell (this : ParticleMC R) :
  ptVsGamma this <> 0 -> sin (ptVsGamma this) <> 0 ->
  sin (thetaGamma this) <> 0 -> cos (thetaGamma this) <> 0 ->
  let v := Get4VectorInHadronBosonFrame this in
  Dot v v = m this * m this <->
  sin (ptVsGamma this) * sin (ptVsGamma this)
  = sin (thetaGamma this) * sin (thetaGamma this).
Proof.
  intros Hpt Hsp Hst Hct v.
  destruct (Get4VectorInHadronBosonFrame_transverse_aux this)
    as (Hx & Hy & Hz & He).
  fold v in Hx, Hy, Hz, He.
  unfold Dot. cbn [d_mul d_sub R_double].
  rewrite He, Hx, Hy, Hz; [ | assumption | assumption ].
  set (k := ptVsGamma this) in *.
  set (sp := sin k) in *. set (st := sin (thetaGamma this)) in *.
  set (ct := cos (thetaGamma this)) in *.
  set (cf := cos (phiPrf this)). set (sf := sin (phiPrf this)).
  assert (Hf : sf * sf + cf * cf = 1).
  { pose proof (sin2_cos2 (phiPrf this)) as H. unfold Rsqr in H. exact H. }
  assert (Ht : st * st + ct * ct = 1).
  { pose proof (sin2_cos2 (thetaGamma this)) as H. unfold Rsqr in H.
    exact H. }
  assert (Heq : k / sp * (k / sp) + m this * m this
                - k * ct / st * (k * ct / st) - k * sf * (k * sf)
                - k * cf * (k * cf) - m this * m this
                = k * k * (st * st - sp * sp) / (sp * sp * (st * st))).
  { replace (k * sf * (k * sf)) with (k * k * (1 - cf * cf)) by
      (rewrite <- Hf; ring).
    field_simplify; [ | lra | lra ].
    replace (ct ^ 2) with (1 - st ^ 2) by (rewrite <- Ht; ring).
    field. lra. }
  split.
  - intros H.
    assert (H0 : k * k * (st * st - sp * sp) / (sp * sp * (st * st)) = 0)
      by (rewrite <- Heq, H; ring).
    apply (Rmult_eq_compat_r (sp * sp * (st * st))) in H0.
    unfold Rdiv in H0. rewrite Rmult_assoc, Rinv_l, Rmult_1_r, Rmult_0_l in H0;
      [ | apply Rmult_integral_contrapositive_currified;
          apply Rmult_integral_contrapositive_currified; assumption ].
    apply Rmult_integral in H0. destruct H0 as [H0 | H0]; [ | lra ].
    apply Rmult_integral in H0. tauto.
  - intros H.
    assert (H0 : k * k * (st * st - sp * sp) / (sp * sp * (st * st)) = 0).
    { rewrite H. unfold Rdiv. ring. }
    rewrite H0 in Heq. lra.
Qed.

End HadronBosonFrame.

(** X16 with ptVsGamma = thetaGamma = 1: the sines agree and the vector is
    on the mass shell. *)
Lemma Get4VectorInHadronBosonFrame_mass_shell_witness :
  let this := set_ptVsGamma 1%R (set_thetaGamma 1%R
                (ParticleMC_init (D := R))) in
  (ptVsGamma this <> 0%R /\ sin (ptVsGamma this) <> 0%R /\
   sin (thetaGamma this) <> 0%R /\ cos (thetaGamma this) <> 0%R) /\
  Dot (Get4VectorInHadronBosonFrame this) (Get4VectorInHadronBosonFrame this)
  = (m this * m this)%R.
Proof.
  intros this.
  pose proof PI2_1 as Hpi.
  assert (Hs : sin 1 <> 0%R).
  { apply Rgt_not_eq. apply sin_gt_0; lra. }
  assert (Hc : cos 1 <> 0%R).
  { apply Rgt_not_eq. apply cos_gt_0; lra. }
  assert (H1 : ptVsGamma this <> 0%R) by (cbn; lra).
  assert (H2 : sin (ptVsGamma this) <> 0%R) by exact Hs.
  assert (H3 : sin (thetaGamma this) <> 0%R) by exact Hs.
  assert (H4 : cos (thetaGamma this) <> 0%R) by exact Hc.
  split; [ repeat split; assumption | ].
  apply (@Get4VectorInHadronBosonFrame_mass_shell this H1 H2 H3 H4).
  reflexivity.
Defined.

(** ** [computeBoost] and the rest frame *)

Section RestFrame.
Import Exact.
Local Open Scope R_scope.

(** Boosted by the velocity [-(rest.BoostVector())], a time-like [rest] of
    positive energy has no momentum left, and its energy is its invariant
    mass. *)
Lemma Boost_to_rest_frame (rest : TLorentzVector R) :
  timelike rest ->
  let v := Boost (v3_neg (BoostVector rest)) rest in
  Px v = 0 /\ Py v = 0 /\ Pz v = 0 /\
  Energy v = R_sqrt.sqrt (Dot rest rest) /\ 0 < Energy v.
Proof.
  intros [HT Hp]. destruct rest as [X Y Z T]. cbn in HT, Hp.
  cbv zeta. unfold Boost, v3_neg, BoostVector, Dot.
  cbn [Px Py Pz Energy vX vY vZ d_add d_sub d_mul d_div d_neg d_lit d_lt
       d_sqrt R_double].
  remember (- (X / T) * - (X / T) + - (Y / T) * - (Y / T)
            + - (Z / T) * - (Z / T)) as b2 eqn:Eb2.
  assert (Hb2 : b2 * (T * T) = X * X + Y * Y + Z * Z)
    by (rewrite Eb2; field; lra).
  assert (Hb2lt : b2 < 1) by nra.
  assert (Hb2ge : 0 <= b2) by (rewrite Eb2; nra).
  remember (R_sqrt.sqrt (1 - b2)) as s eqn:Es.
  assert (Hs : 0 < s) by (rewrite Es; apply sqrt_lt_R0; lra).
  assert (Hss : s * s = 1 - b2) by (rewrite Es; apply sqrt_sqrt; lra).
  assert (Hbp : - (X / T) * X + - (Y / T) * Y + - (Z / T) * Z = - (b2 * T)).
  { replace (- (X / T) * X + - (Y / T) * Y + - (Z / T) * Z)
      with (- ((X * X + Y * Y + Z * Z) / T)) by (field; lra).
    rewrite <- Hb2. field. lra. }
  rewrite Hbp.
  assert (HE : 1 / s * (T + - (b2 * T)) = T * s).
  { replace (T + - (b2 * T)) with (T * (1 - b2)) by ring.
    rewrite <- Hss. field. lra. }
  assert (Hm : R_sqrt.sqrt (T * T - Z * Z - Y * Y - X * X) = T * s).
  { replace (T * T - Z * Z - Y * Y - X * X) with (T * T * (1 - b2)) by lra.
    rewrite sqrt_mult by nra. rewrite sqrt_square by lra. now rewrite Es. }
  rewrite HE, Hm.
  unfold R_lt. destruct (Rlt_dec 0 b2) as [Hpos | Hzero].
  - repeat split; try (field; lra). nra.
  - assert (Hb0 : b2 = 0) by lra.
    assert (HX : X = 0 /\ Y = 0 /\ Z = 0).
    { rewrite Hb0, Rmult_0_l in Hb2. symmetry in Hb2.
      repeat split; nra. }
    destruct HX as (-> & -> & ->).
    repeat split; try (field; lra). nra.
Qed.

(** The velocity of a time-like vector of positive energy is slower than
    light. *)
Lemma BoostVector_slower_than_light (rest : TLorentzVector R) :
  timelike rest ->
  let b := v3_neg (BoostVector rest) in
  vX b * vX b + vY b * vY b + vZ b * vZ b < 1.
Proof.
  intros [HT Hp]. destruct rest as [X Y Z T]. cbn in HT, Hp. cbn.
  apply Rmult_lt_reg_r with (T * T); [ nra | ].
  replace ((- (X / T) * - (X / T) + - (Y / T) * - (Y / T)
            + - (Z / T) * - (Z / T)) * (T * T))
    with (X * X + Y * Y + Z * Z) by (field; lra).
  lra.
Qed.

(** The matrix [SetBoost] fills in acts as [TLorentzVector::Boost]. *)
Lemma matrices_act_as_boost
    (SetZAxis3 : RootMatrices.Matrix3 -> TVector3 R -> RootMatrices.Matrix3)
    (phiH : TLorentzVector R -> TLorentzVector R -> TLorentzVector R -> R) :
  acts_as_boost (RootMatrices.matrices SetZAxis3 phiH).
Proof.
  intros [bx by' bz] [X Y Z T] Hb. cbn in Hb.
  cbn [lv_transform LorentzRotation RootMatrices.matrices].
  unfold RootMatrices.VectorMultiplication, RootMatrices.SetBoost, Boost.
  cbn [Px Py Pz Energy vX vY vZ d_add d_sub d_mul d_div d_neg d_lit d_lt
       d_sqrt R_double RootMatrices.fxx RootMatrices.fxy RootMatrices.fxz
       RootMatrices.fxt RootMatrices.fyx RootMatrices.fyy RootMatrices.fyz
       RootMatrices.fyt RootMatrices.fzx RootMatrices.fzy RootMatrices.fzz
       RootMatrices.fzt RootMatrices.ftx RootMatrices.fty RootMatrices.ftz
       RootMatrices.ftt].
  cbv zeta.
  remember (bx * bx + by' * by' + bz * bz) as b2 eqn:Eb2.
  assert (Hb2ge : 0 <= b2) by (rewrite Eb2; nra).
  remember (R_sqrt.sqrt (1 - b2)) as s eqn:Es.
  assert (Hs : 0 < s) by (rewrite Es; apply sqrt_lt_R0; lra).
  assert (Hss : s * s = 1 - b2) by (rewrite Es; apply sqrt_sqrt; lra).
  remember (1 / s) as g eqn:Eg.
  assert (Hg : 0 < g) by (rewrite Eg; apply Rdiv_lt_0_compat; lra).
  assert (Hgg : g * g * (1 - b2) = 1) by (rewrite Eg, <- Hss; field; lra).
  unfold R_lt. destruct (Rlt_dec 0 b2) as [Hpos | Hzero].
  - assert (Hk : (g - 1) / b2 = g * g / (1 + g)).
    { apply Rmult_eq_reg_r with (b2 * (1 + g));
        [ | apply Rmult_integral_contrapositive_currified; lra ].
      replace ((g - 1) / b2 * (b2 * (1 + g))) with ((g - 1) * (1 + g))
        by (field; lra).
      replace (g * g / (1 + g) * (b2 * (1 + g))) with (g * g * b2)
        by (field; lra).
      lra. }
    rewrite Hk. f_equal; ring.
  - assert (Hb0 : b2 = 0) by lra.
    assert (H0 : bx = 0 /\ by' = 0 /\ bz = 0)
      by (rewrite Eb2 in Hb0; repeat split; nra).
    destruct H0 as (-> & -> & ->). f_equal; ring.
Qed.

(** Multiplying a vector by a product of matrices is multiplying it by the
    one after the other. *)
Lemma VectorMultiplication_product (a b : RootMatrices.Matrix4)
    (v : TLorentzVector R) :
  RootMatrices.VectorMultiplication (RootMatrices.MatrixMultiplication a b) v
  = RootMatrices.VectorMultiplication a
      (RootMatrices.VectorMultiplication b v).
Proof.
  destruct a, b, v.
  unfold RootMatrices.VectorMultiplication,
    RootMatrices.MatrixMultiplication.
  cbn. f_equal; ring.
Qed.

(** The product with a rotation leaves a four-vector at rest as it is,
    whatever the 3x3 matrix. *)
Lemma matrices_rotation_keeps_rest
    (SetZAxis3 : RootMatrices.Matrix3 -> TVector3 R -> RootMatrices.Matrix3)
    (phiH : TLorentzVector R -> TLorentzVector R -> TLorentzVector R -> R) :
  rotation_keeps_rest (RootMatrices.matrices SetZAxis3 phiH).
Proof.
  intros a r v.
  cbn [lv_transform Transform RootMatrices.matrices].
  unfold RootMatrices.Transform4. rewrite VectorMultiplication_product.
  destruct (RootMatrices.VectorMultiplication a v) as [X Y Z T].
  cbn [Px Py Pz]. intros -> -> ->. destruct r.
  unfold RootMatrices.VectorMultiplication, RootMatrices.OfRotation.
  cbn. f_equal; ring.
Qed.

(** X17, in exact real arithmetic and for any implementation of ROOT's
    classes in which [TLorentzRotation(b)] acts as the boost by [b] and a
    rotation leaves a vector at rest alone: [computeBoost(rest, z)], with or
    without the vector [z], takes a time-like [rest] of positive energy to
    its rest frame.  Transformed by the result, [rest] has no momentum, and
    its energy is its invariant mass, the square root of E^2 - |p|^2. *)
Theorem computeBoost_rest_frame (root : RootOps R)
    (rest : TLorentzVector R) (z : option (TLorentzVector R)) :
  acts_as_boost root -> rotation_keeps_rest root -> timelike rest ->
  let v := lv_transform rest (computeBoost rest z) in
  Px v = 0 /\ Py v = 0 /\ Pz v = 0 /\
  Energy v = R_sqrt.sqrt (Dot rest rest) /\ 0 < Energy v.
Proof.
  intros Hboost Hrot Ht.
  pose proof (Boost_to_rest_frame Ht) as Hrest. cbv zeta in Hrest.
  pose proof (BoostVector_slower_than_light Ht) as Hslow.
  cbv zeta in Hslow.
  rewrite <- (Hboost _ rest Hslow) in Hrest.
  cbv zeta. destruct z as [zv | ]; [ | exact Hrest ].
  unfold computeBoost.
  destruct Hrest as (Hx & Hy & Hz & He).
  rewrite (Hrot _ _ rest Hx Hy Hz).
  repeat split; tauto.
Qed.

End RestFrame.

(** X17 with ROOT's matrices, at rest = (px, py, pz, E) = (3, 0, 4, 13), of
    invariant mass 12, and z = (0, 0, 5, 5). *)
Lemma computeBoost_rest_frame_witness :
  let root := RootMatrices.matrices (fun r _ => r) (fun _ _ _ => 0%R) in
  let rest := mkTLorentzVector 3%R 0%R 4%R 13%R in
  let z := Some (mkTLorentzVector 0%R 0%R 5%R 5%R) in
  (acts_as_boost root /\ rotation_keeps_rest root /\ timelike rest) /\
  Px (lv_transform rest (computeBoost rest z)) = 0%R.
Proof.
  intros root rest z.
  assert (H1 : acts_as_boost root) by apply matrices_act_as_boost.
  assert (H2 : rotation_keeps_rest root)
    by apply matrices_rotation_keeps_rest.
  assert (H3 : timelike rest) by (unfold timelike; cbn; lra).
  split; [ exact (conj H1 (conj H2 H3)) | ].
  exact (proj1 (@computeBoost_rest_frame root rest z H1 H2 H3)).
Defined.
